(** * WiderPedestrian: the dataset adapter of lib/datasets/WiderPedestrian.py

    A shallow embedding of the Python class [WiderPedestrian] and the
    properties of its operations: box sanitisation and record assembly
    ([_load_coco_annotation]), the ground-truth cache ([gt_roidb]),
    horizontal flipping ([append_flipped_images]), the results writer
    ([_write_coco_results_file]), the evaluation driver
    ([evaluate_detections]) and the two configuration flags
    ([competition_mode]).

    Conventions of the embedding.
    - Python integers are [Z].  A number read from the annotation JSON is a
      [Num]: an [int] or a [float].  Floats are carried as rationals [Q]:
      finite, and without the rounding of float64 arithmetic.  On such
      numbers [np.max], [np.min] and [+] follow NumPy: integers become
      [int64] scalars, whose sum wraps around at 2^63, and one float
      operand makes the result a float.  NumPy holds an integer as an
      [int64] when it lies in the [int64] range; the statements about the
      clipping arithmetic say which integers they cover.
    - NumPy [uint16] cells hold a [Z] reduced modulo 2^16 ([to_uint16]); a
      float assigned into one is first truncated toward zero
      ([astype_uint16]).  [float32] cells hold the nearest binary32 number
      ([to_float32]).  Detection rows are float arrays and are carried as
      rationals [Q], without rounding.
    - [print] has no counterpart: standard output is not part of the state.
    - Exceptions are values of [PyError]; a pure computation that may raise
      has type [Result A], one that also touches the disk has type [IO A].
    - [dict] objects are [gmap]s; a [dict] built from a list of pairs keeps
      the last binding of a key ([dict_of_list]).
    - The collaborators that are not part of this file (pycocotools' [COCO],
      the [imdb] base class, [cfg]) appear as data: the record [COCO] holds
      the answers of the annotation index, the record [Env] the
      configuration. *)

From Stdlib Require Import ZArith QArith Qround Qabs Qminmax Ascii.
From stdpp Require Import base option list strings gmap pretty.

Open Scope Z_scope.

(** ** Python primitives *)

Module Py.

(** The exceptions the modelled code can raise. *)
Inductive PyError : Type :=
| KeyError
| IndexError
| AssertionError
| TypeError
| IOError.

Abbreviation Result := (sum PyError).

Abbreviation ok := inr (only parsing).
Abbreviation raise := inl (only parsing).

#[global] Instance result_ret : MRet Result := λ A a, inr a.
#[global] Instance result_bind : MBind Result :=
  λ A B f m, match m with inl e => inl e | inr a => f a end.
#[global] Instance result_fmap : FMap Result :=
  λ A B f m, match m with inl e => inl e | inr a => inr (f a) end.

(** [d[k]]: a missing key raises [KeyError]. *)
Definition getitem `{Countable K} {V} (d : gmap K V) (k : K) : Result V :=
  match d !! k with
  | Some v => ok v
  | None => raise KeyError
  end.

(** [l[i]] for a non-negative [i]: out of range raises [IndexError]. *)
Definition index {A} (l : list A) (i : nat) : Result A :=
  match l !! i with
  | Some a => ok a
  | None => raise IndexError
  end.

(** [dict(pairs)]: later pairs overwrite earlier ones. *)
Definition dict_of_list `{Countable K} {V} (l : list (K * V)) : gmap K V :=
  foldl (λ d kv, <[kv.1 := kv.2]> d) ∅ l.

(** [zip(a, b)] stops at the shorter argument. *)
Fixpoint pyzip {A B} (a : list A) (b : list B) : list (A * B) :=
  match a, b with
  | x :: a', y :: b' => (x, y) :: pyzip a' b'
  | _, _ => []
  end.

(** [for x in l] with a body that may raise: the first exception stops
    the iteration. *)
Fixpoint mapM {A B} (f : A → Result B) (l : list A) : Result (list B) :=
  match l with
  | [] => ok []
  | x :: l' => y ← f x; ys ← mapM f l'; ok (y :: ys)
  end.

(** Values of the two dynamic types that meet in [evaluate_detections]. *)
Inductive PyVal : Type :=
| PStr (s : string)
| PInt (n : Z).

(** Python's [+]: string concatenation or integer addition; mixing the
    two raises [TypeError]. *)
Definition py_add (a b : PyVal) : Result PyVal :=
  match a, b with
  | PStr s, PStr t => ok (PStr (s +:+ t))
  | PInt m, PInt n => ok (PInt (m + n))
  | _, _ => raise TypeError
  end.

(** A value used where the callee needs a [str]. *)
Definition as_str (v : PyVal) : Result string :=
  match v with
  | PStr s => ok s
  | PInt _ => raise TypeError
  end.

(** Truth value of an integer, as in [if obj['iscrowd']:]. *)
Definition truthy (z : Z) : bool := negb (z =? 0).

(** A value stored into a [numpy.uint16] cell. *)
Definition to_uint16 (z : Z) : Z := z `mod` 65536.

(** A number of the annotation JSON, and a NumPy scalar computed from such
    numbers: an integer ([int], [numpy.int64]) or a float ([float],
    [numpy.float64]). *)
Inductive Num : Type :=
| Int (z : Z)
| Float (q : Q).

(** The value of a number.  Results of float arithmetic are kept in lowest
    terms ([Qred]), so that a float has one representation. *)
Definition num_val (v : Num) : Q :=
  match v with
  | Int z => inject_Z z
  | Float q => q
  end.

(** A sum as an [int64] holds it. *)
Definition wrap64 (z : Z) : Z := (z + 2 ^ 63) `mod` 2 ^ 64 - 2 ^ 63.

(** [np.max((0, v))]: the pair becomes an [int64] array when [v] is an
    integer and a [float64] array when it is a float. *)
Definition np_max0 (v : Num) : Num :=
  match v with
  | Int z => Int (Z.max 0 z)
  | Float q => Float (if Qle_bool 0 q then q else 0%Q)
  end.

(** [v - 1] on a number of the JSON: Python's own subtraction. *)
Definition py_sub1 (v : Num) : Num :=
  match v with
  | Int z => Int (z - 1)
  | Float q => Float (Qred (q - 1))
  end.

(** [a + b] on two NumPy scalars: [int64] addition wraps around. *)
Definition np_add (a b : Num) : Num :=
  match a, b with
  | Int x, Int y => Int (wrap64 (x + y))
  | _, _ => Float (Qred (num_val a + num_val b))
  end.

(** [np.min((n, v))] for a Python integer [n] and a NumPy scalar [v]. *)
Definition np_min (n : Z) (v : Num) : Num :=
  match v with
  | Int z => Int (Z.min n z)
  | Float q => Float (if Qle_bool (inject_Z n) q then inject_Z n else q)
  end.

(** [a >= b] on two NumPy scalars. *)
Definition np_ge (a b : Num) : bool :=
  match a, b with
  | Int x, Int y => y <=? x
  | _, _ => Qle_bool (num_val b) (num_val a)
  end.

(** [v > 0] on a number of the JSON. *)
Definition py_gt0 (v : Num) : bool :=
  match v with
  | Int z => 0 <? z
  | Float q => negb (Qle_bool q 0)
  end.

(** The integer part of a float: truncation toward zero. *)
Definition Qtrunc (q : Q) : Z := Z.quot (Qnum q) (Zpos (Qden q)).

(** The integer a NumPy scalar becomes in an integer array: a float loses
    its fractional part. *)
Definition num_trunc (v : Num) : Z :=
  match v with
  | Int z => z
  | Float q => Qtrunc q
  end.

(** A NumPy scalar converted to [uint16]: an [int64] keeps its low 16
    bits, a [float64] is truncated toward zero first.  (For a float beyond
    the [uint16] range C leaves the conversion open; it is taken to keep the
    low 16 bits of the integer part, as for integers.) *)
Definition astype_uint16 (v : Num) : Z := to_uint16 (num_trunc v).

(** A floating-point value, as a [numpy.float32] cell holds one: a number
    of the format or an infinity. *)
Inductive F32 : Type :=
| f32 (q : Q)
| f32_inf (negative : bool).

(** 2^e for any integer [e]. *)
Definition Qpow2 (e : Z) : Q :=
  if 0 <=? e then inject_Z (2 ^ e) else 1 # Z.to_pos (2 ^ (- e)).

(** The integer part of the binary logarithm of a positive rational. *)
Definition Qlog2_floor (a : Q) : Z :=
  let e := Z.log2 (Qnum a) - Z.log2 (Zpos (Qden a)) in
  if Qle_bool (Qpow2 e) a then e else e - 1.

(** Rounding to the nearest integer, ties to the even one. *)
Definition round_half_even (q : Q) : Z :=
  let f := Qfloor q in
  match (q - inject_Z f ?= 1 # 2)%Q with
  | Lt => f
  | Gt => f + 1
  | Eq => if Z.even f then f else f + 1
  end.

(** The binary floating-point number with [p] significant bits and
    exponents from [emin] to [emax] that is nearest to a positive rational,
    ties to even; [None] when the rounding reaches 2^(emax + 1), which the
    format holds as infinity. *)
Definition float_nearest (p emin emax : Z) (a : Q) : option Q :=
  let e := Z.max emin (Qlog2_floor a) in
  let ulp := Qpow2 (e - (p - 1)) in
  let r := Qred (inject_Z (round_half_even (a / ulp)) * ulp) in
  if Qle_bool (Qpow2 (emax + 1)) r then None else Some r.

(** The same for a rational of any sign: a number of the format, or an
    infinity of the given sign. *)
Definition float_round (p emin emax : Z) (q : Q) : F32 :=
  match Qnum q with
  | 0 => f32 0
  | Zpos _ => match float_nearest p emin emax q with
              | Some r => f32 r
              | None => f32_inf false
              end
  | Zneg _ => match float_nearest p emin emax (- q) with
              | Some r => f32 (Qred (- r))
              | None => f32_inf true
              end
  end.

(** Rounding to binary32 and to binary64. *)
Definition round32 (q : Q) : F32 := float_round 24 (-126) 127 q.
Definition round64 (q : Q) : F32 := float_round 53 (-1022) 1023 q.

(** A number stored into a [numpy.float32] cell.  A Python [float] is
    rounded to binary32; a Python [int] is first converted to a float64
    and then rounded to binary32.  (Python refuses to convert an integer
    beyond the float64 range, of 2^1024 and more; such an area is taken as
    an infinity.) *)
Definition to_float32 (v : Num) : F32 :=
  match v with
  | Float q => round32 q
  | Int z => match round64 (inject_Z z) with
             | f32 d => round32 d
             | f32_inf negative => f32_inf negative
             end
  end.

(** [str(n)] for an integer. *)
Definition str (n : Z) : string := pretty n.

(** ['0' * n]. *)
Fixpoint zeros (n : nat) : string :=
  match n with
  | O => ""
  | S n' => String "0"%char (zeros n')
  end.

(** [s.zfill(width)]: zeros go after a leading sign. *)
Definition zfill (width : nat) (s : string) : string :=
  if decide (width ≤ String.length s)%nat then s
  else
    let fill := zeros (width - String.length s) in
    match s with
    | String c rest =>
        if decide (c = "+"%char ∨ c = "-"%char)
        then String c (fill +:+ rest)
        else fill +:+ s
    | EmptyString => fill
    end.

Definition startswith_sep (s : string) : bool :=
  match s with
  | String "/"%char _ => true
  | _ => false
  end.

Fixpoint endswith_sep (s : string) : bool :=
  match s with
  | EmptyString => false
  | String c EmptyString => bool_decide (c = "/"%char)
  | String _ rest => endswith_sep rest
  end.

(** One step of [posixpath.join]: an absolute component replaces what
    came before, otherwise it is appended after exactly one separator. *)
Definition join2 (path b : string) : string :=
  if startswith_sep b then b
  else if bool_decide (path = "") || endswith_sep path then path +:+ b
  else path +:+ "/" +:+ b.

(** [os.path.join(a, *p)]. *)
Definition osp_join (a : string) (p : list string) : string :=
  foldl join2 a p.

End Py.
Import Py.

(** ** Data model *)

(** The annotation index (pycocotools' [COCO] object) as the answers it
    gives to the queries the class makes. *)
Record Category := { cat_name : string; cat_id : Z }.

Record Annotation := {
  bbox : Num * Num * Num * Num;   (* obj['bbox'] = [x, y, w, h] *)
  area : Num;                     (* obj['area'] *)
  iscrowd : Z;                    (* obj['iscrowd'] *)
  category_id : Z }.              (* obj['category_id'] *)

Record ImageInfo := { im_width : Z; im_height : Z }.

(** One entry of the results file. *)
Record ResultEntry := {
  image_id : Z;
  res_category_id : Z;
  res_bbox : list Q;
  score : Q }.

(** pycocotools' evaluation object after [evaluate()] and [accumulate()]:
    the IoU thresholds of its parameters, the shape (iou, recall, cls, area
    range, max dets) of the array [eval['precision']], its entries in
    row-major order, and what [summarize()] does. *)
Record COCOeval := {
  iouThrs : list Q;
  precision_shape : nat * nat * nat * nat * nat;
  precision : list Q;
  summarize : Result unit }.

Record COCO := {
  loadCats : list Category;    (* loadCats(getCatIds()) *)
  getImgIds : list Z;          (* getImgIds() *)
  loadImgs : Z → option ImageInfo;   (* loadImgs(index)[0]; None: KeyError *)
  loadAnns : Z → list Annotation;    (* loadAnns(getAnnIds(imgIds=index, iscrowd=None)) *)
  COCOeval_run : list ResultEntry → Result COCOeval }.
    (* loadRes on the entries of the results file, COCOeval(self, coco_dt),
       evaluate(), accumulate(): the evaluation object, or what they raise *)

(** [getCatIds()]: the identifiers of the categories, in their order. *)
Definition getCatIds (c : COCO) : list Z := cat_id <$> loadCats c.

(** A box (x1, y1, x2, y2) of the [uint16] array [boxes]. *)
Record Box := { x1 : Z; y1 : Z; x2 : Z; y2 : Z }.

(** The list [obj['clean_bbox']]: four NumPy scalars. *)
Record CleanBox := { cx1 : Num; cy1 : Num; cx2 : Num; cy2 : Num }.

(** The per-image record [_load_coco_annotation] returns.  [boxes] is a
    [uint16] array; [gt_classes] holds class indices; the rows of
    [gt_overlaps] are float32 rows that only ever hold -1.0, 0.0 and 1.0,
    kept here as the integers -1, 0 and 1; [seg_areas] is a float32
    array. *)
Record ImageRecord := {
  width : Z;
  height : Z;
  boxes : list Box;
  gt_classes : list nat;
  gt_overlaps : list (list Z);
  flipped : bool;
  seg_areas : list F32 }.

(** What a file on disk holds. *)
Inductive File : Type :=
| PickledRoidb (r : list ImageRecord)   (* pickle.dump of a roidb *)
| JsonResults (rs : list ResultEntry)   (* json.dump of result entries *)
| PickledEval (e : COCOeval)            (* pickle.dump of a COCOeval object *)
| OtherFile.                            (* an image, a directory, ... *)

Abbreviation FS := (gmap string File).

(** Computations that read and write the disk and may raise. *)
Definition IO (A : Type) : Type := FS → Result A * FS.

#[global] Instance io_ret : MRet IO := λ A a fs, (inr a, fs).
#[global] Instance io_bind : MBind IO :=
  λ A B f m fs,
    match m fs with
    | (inl e, fs') => (inl e, fs')
    | (inr a, fs') => f a fs'
    end.

(** A pure computation run inside [IO]. *)
Definition lift {A} (r : Result A) : IO A := λ fs, (r, fs).

(** [os.path.exists]. *)
Definition osp_exists (path : string) : IO bool :=
  λ fs, (inr (bool_decide (is_Some (fs !! path))), fs).

(** The instance: the attributes [__init__] sets, and those of the [imdb]
    base class the methods read ([name], [cache_path], [_roidb]). *)
Record WiderPedestrian := {
  name : string;
  cache_path : string;
  _roidb : option (list ImageRecord);
  config : gmap string bool;
  _year : PyVal;
  _image_set : string;
  _devkit_path : string;
  _use_cache : bool;
  _ann_path : string;
  _data_path : string;
  _COCO : COCO;
  _classes : list string;
  _class_to_ind : gmap string nat;
  _class_to_coco_cat_id : gmap string Z;
  _image_index : list Z;
  _data_name : string }.

(** [imdb.num_classes] and [imdb.num_images]: the lengths of the class
    tuple and of the image index. *)
Definition num_classes (self : WiderPedestrian) : nat := length (_classes self).
Definition num_images (self : WiderPedestrian) : nat := length (_image_index self).

(** ** Annotation-to-record conversion *)

(** Lines 147-150: the clipped box of one annotation. *)
Definition clean_bbox (w h : Z) (obj : Annotation) : CleanBox :=
  let '(bx, by_, bw, bh) := bbox obj in
  let x1 := np_max0 bx in
  let y1 := np_max0 by_ in
  let x2 := np_min (w - 1) (np_add x1 (np_max0 (py_sub1 bw))) in
  let y2 := np_min (h - 1) (np_add y1 (np_max0 (py_sub1 bh))) in
  {| cx1 := x1; cy1 := y1; cx2 := x2; cy2 := y2 |}.

(** Line 151: the test an annotation has to pass. *)
Definition keep_obj (w h : Z) (obj : Annotation) : bool :=
  let b := clean_bbox w h obj in
  py_gt0 (area obj) && np_ge (cx2 b) (cx1 b) && np_ge (cy2 b) (cy1 b).

(** Lines 145-154: the sanitising loop.  A kept annotation is paired with
    its [clean_bbox]. *)
Fixpoint valid_objs (w h : Z) (objs : list Annotation) : list (Annotation * CleanBox) :=
  match objs with
  | [] => []
  | obj :: rest =>
      if keep_obj w h obj
      then (obj, clean_bbox w h obj) :: valid_objs w h rest
      else valid_objs w h rest
  end.

(** Line 170: [obj['clean_bbox']] assigned into a row of the [uint16]
    array [boxes]. *)
Definition store_box (b : CleanBox) : Box :=
  {| x1 := astype_uint16 (cx1 b); y1 := astype_uint16 (cy1 b);
     x2 := astype_uint16 (cx2 b); y2 := astype_uint16 (cy2 b) |}.

(** Lines 164-166: the table from category identifiers to class indices. *)
Definition coco_cat_id_to_class_ind (self : WiderPedestrian) : Result (gmap Z nat) :=
  pairs ← mapM (λ cls,
                  k ← getitem (_class_to_coco_cat_id self) cls;
                  v ← getitem (_class_to_ind self) cls;
                  ok (k, v))
               (tail (_classes self));
  ok (dict_of_list pairs).

(** The four arrays lines 157-160 allocate. *)
Record Arrays := {
  a_boxes : list Box;
  a_gt_classes : list nat;
  a_overlaps : list (list Z);
  a_seg_areas : list F32 }.

Definition zero_box : Box := {| x1 := 0; y1 := 0; x2 := 0; y2 := 0 |}.

Definition np_zeros (num_objs ncls : nat) : Arrays :=
  {| a_boxes := replicate num_objs zero_box;
     a_gt_classes := replicate num_objs 0%nat;
     a_overlaps := replicate num_objs (replicate ncls 0);
     a_seg_areas := replicate num_objs (f32 0) |}.

(** Lines 169-178: the body of the filling loop at row [ix]. *)
Definition fill_row (table : gmap Z nat) (ncls : nat) (ix : nat)
    (obj : Annotation) (cb : CleanBox) (a : Arrays) : Result Arrays :=
  cls ← getitem table (category_id obj);
  let a1 := {| a_boxes := <[ix := store_box cb]> (a_boxes a);
               a_gt_classes := <[ix := cls]> (a_gt_classes a);
               a_overlaps := a_overlaps a;
               a_seg_areas := <[ix := to_float32 (area obj)]> (a_seg_areas a) |} in
  if truthy (iscrowd obj) then
    ok {| a_boxes := a_boxes a1; a_gt_classes := a_gt_classes a1;
          a_overlaps := <[ix := replicate ncls (-1)]> (a_overlaps a1);
          a_seg_areas := a_seg_areas a1 |}
  else if decide (cls < ncls)%nat then
    ok {| a_boxes := a_boxes a1; a_gt_classes := a_gt_classes a1;
          a_overlaps := alter (<[cls := 1]>) ix (a_overlaps a1);
          a_seg_areas := a_seg_areas a1 |}
  else raise IndexError.

(** Lines 168-178: [for ix, obj in enumerate(objs)], from row [ix] on. *)
Fixpoint fill_arrays (table : gmap Z nat) (ncls : nat) (ix : nat)
    (objs : list (Annotation * CleanBox)) (a : Arrays) : Result Arrays :=
  match objs with
  | [] => ok a
  | (obj, cb) :: rest =>
      a' ← fill_row table ncls ix obj cb a;
      fill_arrays table ncls (S ix) rest a'
  end.

(** Modelled from the spec: [ds_utils.validate_boxes], of
    datasets/ds_utils.py, which is not among the sources.  It is taken to
    assert the ImageRecord invariant of the spec: every box has
    non-negative corners, [x2 >= x1], [y2 >= y1], and lies left of
    [width] and above [height]. *)
Definition validate_boxes (bs : list Box) (w h : Z) : Result unit :=
  if forallb (λ b, (0 <=? x1 b) && (0 <=? y1 b) && (x1 b <=? x2 b)
                   && (y1 b <=? y2 b) && (x2 b <? w) && (y2 b <? h)) bs
  then ok ()
  else raise AssertionError.

(** [_load_coco_annotation(index)].  [image_label] is [None] on every
    instance (set by [__init__], assigned nowhere else), so the block that
    fills [label] is skipped; [label] is not part of the returned record.
    Dense and sparse overlaps hold the same entries. *)
Definition _load_coco_annotation (self : WiderPedestrian) (index : Z) : Result ImageRecord :=
  im_ann ← match loadImgs (_COCO self) index with
           | Some im => ok im
           | None => raise KeyError
           end;
  let w := im_width im_ann in
  let h := im_height im_ann in
  let objs := valid_objs w h (loadAnns (_COCO self) index) in
  let num_objs := length objs in
  let a0 := np_zeros num_objs (num_classes self) in
  table ← coco_cat_id_to_class_ind self;
  a ← fill_arrays table (num_classes self) 0 objs a0;
  _ ← validate_boxes (a_boxes a) w h;
  ok {| width := w;
        height := h;
        boxes := a_boxes a;
        gt_classes := a_gt_classes a;
        gt_overlaps := a_overlaps a;
        flipped := false;
        seg_areas := a_seg_areas a |}.

(** ** Construction *)

(** What the constructor reads from outside the class: [cfg.DATA_DIR], the
    cache directory of [imdb], and pycocotools' constructor [COCO(path)]
    ([None] when it raises). *)
Record Env := {
  cfg_DATA_DIR : string;
  imdb_cache_path : string;
  COCO_ctor : string → option COCO }.

Definition _get_default_path (env : Env) : string :=
  osp_join (cfg_DATA_DIR env) ["WiderPedestrian"].

Definition ann_file (data_path ann_path image_set : string) : string :=
  osp_join data_path [ann_path; "WiderPedestrian" +:+ "_" +:+ image_set +:+ ".json"].

Definition _get_ann_file (self : WiderPedestrian) : string :=
  ann_file (_data_path self) (_ann_path self) (_image_set self).

Definition set_config (self : WiderPedestrian) (c : gmap string bool) : WiderPedestrian :=
  {| name := name self; cache_path := cache_path self; _roidb := _roidb self;
     config := c; _year := _year self; _image_set := _image_set self;
     _devkit_path := _devkit_path self; _use_cache := _use_cache self;
     _ann_path := _ann_path self; _data_path := _data_path self;
     _COCO := _COCO self; _classes := _classes self;
     _class_to_ind := _class_to_ind self;
     _class_to_coco_cat_id := _class_to_coco_cat_id self;
     _image_index := _image_index self; _data_name := _data_name self |}.

Definition set_roidb (self : WiderPedestrian) (r : option (list ImageRecord))
    (idx : list Z) : WiderPedestrian :=
  {| name := name self; cache_path := cache_path self; _roidb := r;
     config := config self; _year := _year self; _image_set := _image_set self;
     _devkit_path := _devkit_path self; _use_cache := _use_cache self;
     _ann_path := _ann_path self; _data_path := _data_path self;
     _COCO := _COCO self; _classes := _classes self;
     _class_to_ind := _class_to_ind self;
     _class_to_coco_cat_id := _class_to_coco_cat_id self;
     _image_index := idx; _data_name := _data_name self |}.

(** [competition_mode(on)]. *)
Definition competition_mode (self : WiderPedestrian) (on : bool) : WiderPedestrian :=
  if on then
    set_config self (<["cleanup" := false]> (<["use_salt" := false]> (config self)))
  else
    set_config self (<["cleanup" := true]> (<["use_salt" := true]> (config self))).

(** [_load_image_set_index()]: the image identifiers of the index. *)
Definition _load_image_set_index (coco : COCO) : list Z :=
  let image_ids := getImgIds coco in
  image_ids.

(** [__init__(image_set, devkit_path, ann_path)]. *)
Definition __init__ (env : Env) (image_set : string)
    (devkit_path ann_path : option string) : Result WiderPedestrian :=
  let year := PInt 2018 in
  let devkit := match devkit_path with
                | None => _get_default_path env
                | Some d => d
                end in
  let use_cache := match ann_path with None => true | Some _ => false end in
  let annp := match ann_path with Some a => a | None => "annotations" end in
  let data_path := osp_join devkit [] in
  coco ← match COCO_ctor env (ann_file data_path annp image_set) with
          | Some c => ok c
          | None => raise IOError
          end;
  let cats := loadCats coco in
  let classes := "__background__" :: (cat_name <$> cats) in
  let self :=
    {| name := "WiderPedestrian_" +:+ image_set;
       cache_path := imdb_cache_path env;
       _roidb := None;
       config := <["cleanup" := true]> (<["use_salt" := true]> ∅);
       _year := year;
       _image_set := image_set;
       _devkit_path := devkit;
       _use_cache := use_cache;
       _ann_path := annp;
       _data_path := data_path;
       _COCO := coco;
       _classes := classes;
       _class_to_ind := dict_of_list (pyzip classes (seq 0 (length classes)));
       _class_to_coco_cat_id := dict_of_list (pyzip (cat_name <$> cats) (getCatIds coco));
       _image_index := _load_image_set_index coco;
       _data_name := image_set |} in
  ok (competition_mode self false).

(** ** Image paths *)

(** [l[i]] for any integer [i]: a negative index counts from the end. *)
Definition getitem_int {A} (l : list A) (i : Z) : Result A :=
  let n := Z.of_nat (length l) in
  if decide (0 ≤ i < n) then index l (Z.to_nat i)
  else if decide (- n ≤ i < 0) then index l (Z.to_nat (n + i))
  else raise IndexError.

Definition image_file_name (index : Z) : string :=
  "img" +:+ zfill 5 (str index) +:+ ".jpg".

(** [image_path_from_index(index)]. *)
Definition image_path_from_index (self : WiderPedestrian) (index : Z) : IO string :=
  let file_name := image_file_name index in
  let image_path := osp_join (_data_path self) ["JPEGImages"; file_name] in
  ex ← osp_exists image_path;
  if ex : bool then mret image_path else lift (raise AssertionError).

(** [image_path_at(i)]. *)
Definition image_path_at (self : WiderPedestrian) (i : Z) : IO string :=
  index ← lift (getitem_int (_image_index self) i);
  image_path_from_index self index.

(** ** The ground-truth cache *)

Definition cache_file (self : WiderPedestrian) : string :=
  osp_join (cache_path self) [name self +:+ "_gt_roidb.pkl"].

(** [pickle.load] of a roidb; a file holding something else does not
    unpickle to one. *)
Definition pickle_load_roidb (path : string) : IO (list ImageRecord) :=
  λ fs, match fs !! path with
        | Some (PickledRoidb r) => (inr r, fs)
        | _ => (inl IOError, fs)
        end.

Definition pickle_dump_roidb (r : list ImageRecord) (path : string) : IO unit :=
  λ fs, (inr (), <[path := PickledRoidb r]> fs).

(** [gt_roidb()]. *)
Definition gt_roidb (self : WiderPedestrian) : IO (list ImageRecord) :=
  let cache_file := cache_file self in
  ex ← osp_exists cache_file;
  if (ex : bool) && _use_cache self then
    pickle_load_roidb cache_file
  else
    gt ← lift (mapM (_load_coco_annotation self) (_image_index self));
    _ ← pickle_dump_roidb gt cache_file;
    mret gt.

(** Modelled from the spec: the [roidb] property of the [imdb] base class,
    which is not among the sources.  The roidb is built on first request by
    the ground-truth handler and kept on the instance. *)
Definition roidb (self : WiderPedestrian) : IO (list ImageRecord * WiderPedestrian) :=
  match _roidb self with
  | Some r => mret (r, self)
  | None =>
      r ← gt_roidb self;
      mret (r, set_roidb self (Some r) (_image_index self))
  end.

(** ** Horizontal flipping *)

(** Lines 203-206 on one row.  [widths[i]] is a Python integer and the
    columns are [uint16]; whatever type NumPy's value-based promotion gives
    the difference, it is stored back into the [uint16] array [boxes], so
    the cell holds the difference modulo 2^16. *)
Definition flip_box (w : Z) (b : Box) : Box :=
  {| x1 := to_uint16 (w - x2 b - 1);
     y1 := y1 b;
     x2 := to_uint16 (w - x1 b - 1);
     y2 := y2 b |}.

(** Lines 202-214: the mirrored entry of one record, or the failure of the
    assertion of line 207. *)
Definition flip_entry (w : Z) (r : ImageRecord) : Result ImageRecord :=
  let bs := flip_box w <$> boxes r in
  if forallb (λ b, x1 b <=? x2 b) bs then
    ok {| width := w;
          height := height r;
          boxes := bs;
          gt_classes := gt_classes r;
          gt_overlaps := gt_overlaps r;
          flipped := true;
          seg_areas := seg_areas r |}
  else raise AssertionError.

(** Lines 201-216: [for i in range(num_images)], appending to the roidb it
    reads from. *)
Fixpoint flip_loop (widths : list Z) (range : list nat) (rdb : list ImageRecord)
    : Result (list ImageRecord) :=
  match range with
  | [] => ok rdb
  | i :: rest =>
      r ← index rdb i;
      w ← index widths i;
      entry ← flip_entry w r;
      flip_loop widths rest (rdb ++ [entry])
  end.

(** [_get_widths()], the second definition of that name in the class:
    the widths of the records of the roidb. *)
Definition _get_widths (self : WiderPedestrian) : IO (list Z * WiderPedestrian) :=
  '(rdb, self1) ← roidb self;
  mret (width <$> rdb, self1).

(** [append_flipped_images()].  The list the loop appends to is the
    roidb of the instance. *)
Definition append_flipped_images (self : WiderPedestrian) : IO WiderPedestrian :=
  let n := num_images self in
  '(widths, self1) ← _get_widths self;
  '(rdb, self2) ← roidb self1;
  rdb' ← lift (flip_loop widths (seq 0 n) rdb);
  mret (set_roidb self2 (Some rdb') (_image_index self2 ++ _image_index self2)).

(** The loop of lines 201-216 with the roidb it leaves behind: the list is
    appended to in place, so the entries added before an exception stay. *)
Fixpoint flip_loop_state (widths : list Z) (range : list nat) (rdb : list ImageRecord)
    : Result unit * list ImageRecord :=
  match range with
  | [] => (ok (), rdb)
  | i :: rest =>
      match (r ← index rdb i; w ← index widths i; flip_entry w r) with
      | inl e => (raise e, rdb)
      | inr entry => flip_loop_state widths rest (rdb ++ [entry])
      end
  end.

(** [append_flipped_images()] with the instance it leaves behind, also when
    it raises: the image index is doubled by the last statement only. *)
Definition append_flipped_images_state (self : WiderPedestrian) (fs : FS)
    : Result unit * WiderPedestrian * FS :=
  let n := num_images self in
  match _get_widths self fs with
  | (inl e, fs1) => (raise e, self, fs1)
  | (inr (widths, self1), fs1) =>
      match roidb self1 fs1 with
      | (inl e, fs2) => (raise e, self1, fs2)
      | (inr (rdb, self2), fs2) =>
          match flip_loop_state widths (seq 0 n) rdb with
          | (inl e, rdb') =>
              (raise e, set_roidb self2 (Some rdb') (_image_index self2), fs2)
          | (inr _, rdb') =>
              (ok (), set_roidb self2 (Some rdb')
                        (_image_index self2 ++ _image_index self2), fs2)
          end
      end
  end.

(** ** Detection results *)

(** One row (x1, y1, x2, y2, score) of a detection array. *)
Record Det := { dx1 : Q; dy1 : Q; dx2 : Q; dy2 : Q; dscore : Q }.

(** Lines 278-287: the entry of one row. *)
Definition result_entry (index cat_id : Z) (d : Det) : ResultEntry :=
  let xs := dx1 d in
  let ys := dy1 d in
  let ws := (dx2 d - xs + 1)%Q in
  let hs := (dy2 d - ys + 1)%Q in
  {| image_id := index;
     res_category_id := cat_id;
     res_bbox := [xs; ys; ws; hs];
     score := dscore d |}.

(** Lines 274-287: [for im_ind, index in enumerate(self.image_index)], from
    position [im_ind] on.  [boxes[im_ind].astype(np.float)] is the array as
    floats, here the rows as rationals; an empty array adds nothing. *)
Fixpoint one_category_loop (boxes : list (list Det)) (cat_id : Z) (im_ind : nat)
    (image_index : list Z) (results : list ResultEntry) : Result (list ResultEntry) :=
  match image_index with
  | [] => ok results
  | index :: rest =>
      dets ← Py.index boxes im_ind;
      match dets with
      | [] => one_category_loop boxes cat_id (S im_ind) rest results
      | _ => one_category_loop boxes cat_id (S im_ind) rest
               (results ++ (result_entry index cat_id <$> dets))
      end
  end.

(** [_coco_results_one_category(boxes, cat_id)]. *)
Definition _coco_results_one_category (self : WiderPedestrian)
    (boxes : list (list Det)) (cat_id : Z) : Result (list ResultEntry) :=
  one_category_loop boxes cat_id 0 (_image_index self) [].

(** Lines 296-303: [for cls_ind, cls in enumerate(self.classes)], from
    position [cls_ind] on. *)
Fixpoint collect_results (self : WiderPedestrian) (all_boxes : list (list (list Det)))
    (cls_ind : nat) (classes : list string) (results : list ResultEntry)
    : Result (list ResultEntry) :=
  match classes with
  | [] => ok results
  | cls :: rest =>
      if bool_decide (cls = "__background__") then
        collect_results self all_boxes (S cls_ind) rest results
      else
        coco_cat_id ← getitem (_class_to_coco_cat_id self) cls;
        boxes ← index all_boxes cls_ind;
        rs ← _coco_results_one_category self boxes coco_cat_id;
        collect_results self all_boxes (S cls_ind) rest (results ++ rs)
  end.

Definition json_dump (rs : list ResultEntry) (path : string) : IO unit :=
  λ fs, (inr (), <[path := JsonResults rs]> fs).

(** [_write_coco_results_file(all_boxes, res_file)]. *)
Definition _write_coco_results_file (self : WiderPedestrian)
    (all_boxes : list (list (list Det))) (res_file : string) : IO unit :=
  results ← lift (collect_results self all_boxes 0 (_classes self) []);
  json_dump results res_file.

(** The results file as [COCO.loadRes(res_file)] opens it. *)
Definition loadRes (path : string) : IO (list ResultEntry) :=
  λ fs, match fs !! path with
        | Some (JsonResults rs) => (inr rs, fs)
        | _ => (inl IOError, fs)
        end.

Definition pickle_dump_eval (e : COCOeval) (path : string) : IO unit :=
  λ fs, (inr (), <[path := PickledEval e]> fs).

Definition Qlt_bool (a b : Q) : bool := negb (Qle_bool b a).

(** [np.where(cond)[0]] for a condition on the entries of a vector: the
    positions, from [i] on, where it holds. *)
Fixpoint np_where {A} (cond : A → bool) (l : list A) (i : nat) : list nat :=
  match l with
  | [] => []
  | x :: l' => if cond x then i :: np_where cond l' (S i) else np_where cond l' (S i)
  end.

(** [np.isclose(a, b)] with its default tolerances. *)
Definition isclose (a b : Q) : bool :=
  Qle_bool (Qabs (a - b)) ((1 # 100000000) + (1 # 100000) * Qabs b).

(** Lines 230-235: the inner function [_get_thr_ind]. *)
Definition _get_thr_ind (coco_eval : COCOeval) (thr : Q) : Result nat :=
  let thrs := iouThrs coco_eval in
  ind ← index (np_where (λ t, Qlt_bool (thr - (1 # 100000)) t
                               && Qlt_bool t (thr + (1 # 100000))) thrs 0) 0;
  iou_thr ← index thrs ind;
  if isclose iou_thr thr then ok ind else raise AssertionError.

(** The entry [t, r, k, a, m] of [eval['precision']]. *)
Definition precision_at (coco_eval : COCOeval) (t r k a m : nat) : Q :=
  let '(_, R, K, A, M) := precision_shape coco_eval in
  nth ((((t * R + r) * K + k) * A + a) * M + m)%nat (precision coco_eval) 0%Q.

(** [precision[ind_lo:(ind_hi + 1), :, ks, 0, 2]] for the class positions
    [ks], flattened; the fixed positions 0 and 2 have to exist. *)
Definition precision_slice (coco_eval : COCOeval) (ind_lo ind_hi : nat) (ks : list nat)
    : Result (list Q) :=
  let '(T, R, _, A, M) := precision_shape coco_eval in
  if (0 <? A)%nat && (2 <? M)%nat then
    ok (t ← seq ind_lo (Nat.min (S ind_hi) T - ind_lo);
        r ← seq 0 R;
        k ← ks;
        [precision_at coco_eval t r k 0 2])
  else raise IndexError.

(** [np.mean(a[a > -1])]; [None] is the NaN of an empty selection. *)
Definition np_mean_valid (l : list Q) : option Q :=
  match List.filter (Qlt_bool (-1)) l with
  | [] => None
  | v => Some (Qred (foldr Qplus 0 v / inject_Z (Z.of_nat (length v)))%Q)
  end.

(** The position [cls_ind - 1] on the class axis of length [K]; -1 counts
    from the end. *)
Definition class_position (K cls_ind : nat) : Result nat :=
  match cls_ind with
  | O => if (0 <? K)%nat then ok (K - 1)%nat else raise IndexError
  | S k => if (k <? K)%nat then ok k else raise IndexError
  end.

(** Lines 246-252: [for cls_ind, cls in enumerate(self.classes)], from
    position [cls_ind] on; the averages it prints, in order. *)
Fixpoint per_category_ap (coco_eval : COCOeval) (ind_lo ind_hi : nat)
    (cls_ind : nat) (classes : list string) : Result (list (option Q)) :=
  match classes with
  | [] => ok []
  | cls :: rest =>
      if bool_decide (cls = "__background__") then
        per_category_ap coco_eval ind_lo ind_hi (S cls_ind) rest
      else
        let '(_, _, K, _, _) := precision_shape coco_eval in
        k ← class_position K cls_ind;
        precision ← precision_slice coco_eval ind_lo ind_hi [k];
        aps ← per_category_ap coco_eval ind_lo ind_hi (S cls_ind) rest;
        ok (np_mean_valid precision :: aps)
  end.

(** [_print_detection_eval_metrics(coco_eval)]: the averages it prints
    (the mean over all classes first, each before its scaling by 100 and
    its formatting), or what it raises. *)
Definition _print_detection_eval_metrics (self : WiderPedestrian)
    (coco_eval : COCOeval) : Result (list (option Q)) :=
  ind_lo ← _get_thr_ind coco_eval (1 # 2);
  ind_hi ← _get_thr_ind coco_eval (95 # 100);
  let '(_, _, K, _, _) := precision_shape coco_eval in
  precision ← precision_slice coco_eval ind_lo ind_hi (seq 0 K);
  let ap_default := np_mean_valid precision in
  aps ← per_category_ap coco_eval ind_lo ind_hi 0 (_classes self);
  _ ← summarize coco_eval;
  ok (ap_default :: aps).

(** [_do_detection_eval(res_file, output_dir)]. *)
Definition _do_detection_eval (self : WiderPedestrian)
    (res_file output_dir : string) : IO unit :=
  coco_dt ← loadRes res_file;
  coco_eval ← lift (COCOeval_run (_COCO self) coco_dt);
  _ ← lift (_print_detection_eval_metrics self coco_eval);
  let eval_file := osp_join output_dir ["detection_results.pkl"] in
  pickle_dump_eval coco_eval eval_file.

Definition os_remove (path : string) : IO unit :=
  λ fs, match fs !! path with
        | Some _ => (inr (), delete path fs)
        | None => (inl IOError, fs)
        end.

(** Line 309-312: the argument of [osp.join], built with [+]. *)
Definition results_basename (self : WiderPedestrian) : Result string :=
  v ← py_add (PStr "detections_") (PStr (_image_set self));
  v ← py_add v (_year self);
  v ← py_add v (PStr "_results");
  as_str v.

(** [evaluate_detections(all_boxes, output_dir)]; [uuid4] is the token
    [uuid.uuid4()] draws. *)
Definition evaluate_detections (self : WiderPedestrian)
    (all_boxes : list (list (list Det))) (output_dir : string) (uuid4 : string)
    : IO unit :=
  base ← lift (results_basename self);
  let res_file := osp_join output_dir [base] in
  use_salt ← lift (getitem (config self) "use_salt");
  let res_file := if use_salt : bool then res_file +:+ "_" +:+ uuid4 else res_file in
  let res_file := res_file +:+ ".json" in
  _ ← _write_coco_results_file self all_boxes res_file;
  _ ← _do_detection_eval self res_file output_dir;
  cleanup ← lift (getitem (config self) "cleanup");
  if cleanup : bool then os_remove res_file else mret ().

(** ** A small world to run the definitions on *)

(** An evaluation object with pycocotools' ten IoU thresholds, one recall
    level, one class, one area range and three detection limits; every
    precision is 1/2. *)
Definition demo_eval : COCOeval :=
  {| iouThrs := [1 # 2; 55 # 100; 6 # 10; 65 # 100; 7 # 10;
                 75 # 100; 8 # 10; 85 # 100; 9 # 10; 95 # 100]%Q;
     precision_shape := (10, 1, 1, 1, 3)%nat;
     precision := replicate 30 (1 # 2)%Q;
     summarize := ok () |}.

Definition demo_coco : COCO :=
  {| loadCats := [ {| cat_name := "pedestrian"; cat_id := 1 |} ];
     getImgIds := [93; 7];
     loadImgs := λ i,
       if i =? 93 then Some {| im_width := 100; im_height := 80 |}
       else if i =? 7 then Some {| im_width := 64; im_height := 48 |}
       else None;
     loadAnns := λ i,
       if i =? 93 then
         [ {| bbox := (Int 10, Int 10, Int 41, Int 41); area := Int 1681; iscrowd := 0; category_id := 1 |};
           {| bbox := (Int (-5), Int 60, Int 30, Int 40); area := Int 1200; iscrowd := 1; category_id := 1 |};
           {| bbox := (Int 120, Int 10, Int 5, Int 5); area := Int 25; iscrowd := 0; category_id := 1 |};
           {| bbox := (Int 20, Int 20, Int 10, Int 10); area := Int 0; iscrowd := 0; category_id := 1 |} ]
       else [];
     COCOeval_run := λ rs, match rs with
                           | [] => raise IndexError
                           | _ => ok demo_eval
                           end |}.

Definition demo_env : Env :=
  {| cfg_DATA_DIR := "data";
     imdb_cache_path := "data/cache";
     COCO_ctor := λ _, Some demo_coco |}.

(** The instance [WiderPedestrian('val')] in that world. *)
Definition demo_ds : WiderPedestrian :=
  {| name := "WiderPedestrian_val";
     cache_path := "data/cache";
     _roidb := None;
     config := <["cleanup" := true]> (<["use_salt" := true]> ∅);
     _year := PInt 2018;
     _image_set := "val";
     _devkit_path := "data/WiderPedestrian";
     _use_cache := true;
     _ann_path := "annotations";
     _data_path := "data/WiderPedestrian";
     _COCO := demo_coco;
     _classes := ["__background__"; "pedestrian"];
     _class_to_ind := <["pedestrian" := 1%nat]> (<["__background__" := 0%nat]> ∅);
     _class_to_coco_cat_id := <["pedestrian" := 1]> ∅;
     _image_index := [93; 7];
     _data_name := "val" |}.

(** The record of image 93 in that world. *)
Definition demo_record_93 : ImageRecord :=
  {| width := 100;
     height := 80;
     boxes := [ {| x1 := 10; y1 := 10; x2 := 50; y2 := 50 |};
                {| x1 := 0; y1 := 60; x2 := 29; y2 := 79 |} ];
     gt_classes := [1%nat; 1%nat];
     gt_overlaps := [[0; 1]; [-1; -1]];
     flipped := false;
     seg_areas := [f32 1681; f32 1200] |}.

(** ** Auxiliary definitions of the statements *)

(** The rows the filling loop writes for one kept annotation: its stored
    box, class index, overlap row and area. *)
Definition row_of (table : gmap Z nat) (ncls : nat) (oc : Annotation * CleanBox)
    : Result (Box * nat * list Z * F32) :=
  cls ← getitem table (category_id oc.1);
  if truthy (iscrowd oc.1) then
    ok (store_box oc.2, cls, replicate ncls (-1), to_float32 (area oc.1))
  else if decide (cls < ncls)%nat then
    ok (store_box oc.2, cls, <[cls := 1]> (replicate ncls 0), to_float32 (area oc.1))
  else raise IndexError.

Definition arrays_of_rows (pre : Arrays) (rows : list (Box * nat * list Z * F32)) : Arrays :=
  {| a_boxes := a_boxes pre ++ ((λ r, r.1.1.1) <$> rows);
     a_gt_classes := a_gt_classes pre ++ ((λ r, r.1.1.2) <$> rows);
     a_overlaps := a_overlaps pre ++ ((λ r, r.1.2) <$> rows);
     a_seg_areas := a_seg_areas pre ++ ((λ r, r.2) <$> rows) |}.

Definition pad_arrays (pre : Arrays) (n ncls : nat) : Arrays :=
  {| a_boxes := a_boxes pre ++ replicate n zero_box;
     a_gt_classes := a_gt_classes pre ++ replicate n 0%nat;
     a_overlaps := a_overlaps pre ++ replicate n (replicate ncls 0);
     a_seg_areas := a_seg_areas pre ++ replicate n (f32 0) |}.

Definition box_in_image (w h : Z) (b : Box) : Prop :=
  0 ≤ x1 b ∧ x1 b ≤ x2 b ∧ x2 b ≤ w - 1 ∧ 0 ≤ y1 b ∧ y1 b ≤ y2 b ∧ y2 b ≤ h - 1.

#[global] Instance Qle_decision (a b : Q) : Decision (a <= b)%Q :=
  Z.le_dec (Qnum a * QDen b) (Qnum b * QDen a).
#[global] Instance Qlt_decision (a b : Q) : Decision (a < b)%Q :=
  Z.lt_dec (Qnum a * QDen b) (Qnum b * QDen a).

(** The same for a clipped box before it is stored. *)
Definition clean_in_image (w h : Z) (b : CleanBox) : Prop :=
  (0 <= num_val (cx1 b) ∧ num_val (cx1 b) <= num_val (cx2 b)
   ∧ num_val (cx2 b) <= inject_Z (w - 1)
   ∧ 0 <= num_val (cy1 b) ∧ num_val (cy1 b) <= num_val (cy2 b)
   ∧ num_val (cy2 b) <= inject_Z (h - 1))%Q.

(** A clipped box with the fractional parts of its coordinates dropped. *)
Definition trunc_box (b : CleanBox) : Box :=
  {| x1 := num_trunc (cx1 b); y1 := num_trunc (cy1 b);
     x2 := num_trunc (cx2 b); y2 := num_trunc (cy2 b) |}.

(** The range of an [int64]. *)
Definition int64_range (z : Z) : Prop := - 2 ^ 63 ≤ z < 2 ^ 63.

(** The sum [x1 + max(0, bw - 1)] of the origin [o] and the size [s] of a
    box stays in the [int64] range.  Only the sum of two integers can leave
    it: a float operand makes the sum a float. *)
Definition no_wrap (o s : Num) : Prop :=
  match o, s with
  | Int b, Int w => Z.max 0 b + Z.max 0 (w - 1) < 2 ^ 63
  | _, _ => True
  end.

#[global] Instance no_wrap_decision (o s : Num) : Decision (no_wrap o s) :=
  match o, s with
  | Int b, Int w => Z.lt_dec (Z.max 0 b + Z.max 0 (w - 1)) (2 ^ 63)
  | Int _, Float _ | Float _, Int _ | Float _, Float _ => left I
  end.

Definition no_overflow (obj : Annotation) : Prop :=
  let '(bx, by_, bw, bh) := bbox obj in
  no_wrap bx bw ∧ no_wrap by_ bh.

(** The two operands of the sum are [int64] values. *)
Definition operands_fit (o s : Num) : Prop :=
  match o, s with
  | Int b, Int w => b < 2 ^ 63 ∧ w - 1 < 2 ^ 63
  | _, _ => True
  end.

Definition int64_operands (obj : Annotation) : Prop :=
  let '(bx, by_, bw, bh) := bbox obj in
  operands_fit bx bw ∧ operands_fit by_ bh.

(** The clipping formulas as the specification words them, on the values
    of the numbers: (x1, y1, x2, y2). *)
Definition spec_clip (W H : Z) (obj : Annotation) : Q * Q * Q * Q :=
  let '(bx, by_, bw, bh) := bbox obj in
  let X1 := Qmax 0 (num_val bx) in
  let Y1 := Qmax 0 (num_val by_) in
  let X2 := Qmin (inject_Z (W - 1)) (X1 + Qmax 0 (num_val bw - 1)) in
  let Y2 := Qmin (inject_Z (H - 1)) (Y1 + Qmax 0 (num_val bh - 1)) in
  (X1, Y1, X2, Y2).

(** The test of the specification: area > 0, x2 >= x1 and y2 >= y1. *)
Definition spec_keep (W H : Z) (obj : Annotation) : Prop :=
  (0 < num_val (area obj))%Q
  ∧ ((spec_clip W H obj).1.1.1 <= (spec_clip W H obj).1.2)%Q
  ∧ ((spec_clip W H obj).1.1.2 <= (spec_clip W H obj).2)%Q.

#[global] Instance spec_keep_decision W H obj : Decision (spec_keep W H obj) :=
  and_dec _ (and_dec _ _).

(** A clipped box holds the values of the specification. *)
Definition clipped_as_spec (W H : Z) (oc : Annotation * CleanBox) : Prop :=
  (num_val (cx1 oc.2) == (spec_clip W H oc.1).1.1.1
   ∧ num_val (cy1 oc.2) == (spec_clip W H oc.1).1.1.2
   ∧ num_val (cx2 oc.2) == (spec_clip W H oc.1).1.2
   ∧ num_val (cy2 oc.2) == (spec_clip W H oc.1).2)%Q.

Definition pre_len (pre : Arrays) (ix : nat) : Prop :=
  length (a_boxes pre) = ix ∧ length (a_gt_classes pre) = ix
  ∧ length (a_overlaps pre) = ix ∧ length (a_seg_areas pre) = ix.

Definition no_arrays : Arrays :=
  {| a_boxes := []; a_gt_classes := []; a_overlaps := []; a_seg_areas := [] |}.

(** The precondition of the flipping step on one box and one record: the
    horizontal part of the ImageRecord invariant, and a width whose
    coordinates fit the [uint16] box array. *)
Definition box_fits (w : Z) (b : Box) : Prop :=
  0 ≤ x1 b ∧ x1 b ≤ x2 b ∧ x2 b ≤ w - 1.

Definition flippable (r : ImageRecord) : Prop :=
  width r ≤ 65536 ∧ Forall (box_fits (width r)) (boxes r).

(** The mirrored record as the specification words it:
    x1' = width - x2 - 1, x2' = width - x1 - 1, everything else unchanged,
    flipped = true. *)
Definition mirrored (r : ImageRecord) : ImageRecord :=
  {| width := width r;
     height := height r;
     boxes := (λ b, {| x1 := width r - x2 b - 1; y1 := y1 b;
                       x2 := width r - x1 b - 1; y2 := y2 b |}) <$> boxes r;
     gt_classes := gt_classes r;
     gt_overlaps := gt_overlaps r;
     flipped := true;
     seg_areas := seg_areas r |}.

(** An instance whose roidb is built and holds [rdb] for the index [idx]. *)
Definition with_roidb (rdb : list ImageRecord) (idx : list Z) : WiderPedestrian :=
  set_roidb demo_ds (Some rdb) idx.

(** A record 200000 pixels wide: the one [_load_coco_annotation] builds for
    an annotation with bbox [70000, 10, 10, 10] in such an image. *)
Definition wide_record : ImageRecord :=
  {| width := 200000;
     height := 100;
     boxes := [ {| x1 := 4464; y1 := 10; x2 := 4473; y2 := 19 |} ];
     gt_classes := [1%nat];
     gt_overlaps := [[0; 1]];
     flipped := false;
     seg_areas := [f32 100] |}.

(** A record 70000 pixels wide with a box inside the image. *)
Definition panorama_record : ImageRecord :=
  {| width := 70000;
     height := 100;
     boxes := [ {| x1 := 0; y1 := 0; x2 := 5000; y2 := 10 |} ];
     gt_classes := [1%nat];
     gt_overlaps := [[0; 1]];
     flipped := false;
     seg_areas := [f32 55011] |}.

(** What [gt_roidb] does when it does not take the cache: convert every
    identifier of the index in order, then write the cache file. *)
Definition compute_and_store (self : WiderPedestrian) (fs : FS)
    : Result (list ImageRecord) * FS :=
  match mapM (_load_coco_annotation self) (_image_index self) with
  | inr recs => (inr recs, <[cache_file self := PickledRoidb recs]> fs)
  | inl e => (inl e, fs)
  end.

(** The roidb of the demo world, and a stale cache for it. *)
Definition demo_roidb : list ImageRecord :=
  [ demo_record_93;
    {| width := 64; height := 48; boxes := []; gt_classes := [];
       gt_overlaps := []; flipped := false; seg_areas := [] |} ].

Definition stale_fs : FS :=
  <["data/cache/WiderPedestrian_val_gt_roidb.pkl" := PickledRoidb [wide_record]]> ∅.

(** The class tables as [__init__] builds them from the categories of the
    annotation index; no method changes them afterwards. *)
Definition built_class_table (self : WiderPedestrian) : Prop :=
  let cats := loadCats (_COCO self) in
  _classes self = "__background__" :: (cat_name <$> cats)
  ∧ _class_to_coco_cat_id self
    = dict_of_list (pyzip (cat_name <$> cats) (getCatIds (_COCO self)))
  ∧ _class_to_ind self
    = dict_of_list (pyzip (_classes self) (seq 0 (length (_classes self)))).

(** The entries of one class, image after image, as the specification
    words them. *)
Definition category_results (image_index : list Z) (boxes : list (list Det))
    (cat_id : Z) : list ResultEntry :=
  concat (zip_with (λ index dets, result_entry index cat_id <$> dets) image_index boxes).

(** The flat sequence of all entries, class after class; a class named
    [__background__] contributes nothing. *)
Definition flat_results (self : WiderPedestrian) (all_boxes : list (list (list Det)))
    : list ResultEntry :=
  concat (zip_with
            (λ cls boxes,
               if bool_decide (cls = "__background__") then []
               else match _class_to_coco_cat_id self !! cls with
                    | Some cat_id => category_results (_image_index self) boxes cat_id
                    | None => []
                    end)
            (_classes self) all_boxes).

(** Detections for the demo world: none for the background class, one box
    for the pedestrian class in image 93, none in image 7. *)
Definition demo_det : Det :=
  {| dx1 := 10; dy1 := 10; dx2 := 20; dy2 := 30; dscore := 9 # 10 |}.

Definition demo_all_boxes : list (list (list Det)) :=
  [ [ []; [] ]; [ [demo_det]; [] ] ].

(** The configuration with the two flags set to [use_salt] and [cleanup]. *)
Definition flags (use_salt cleanup : bool) : gmap string bool :=
  <["cleanup" := cleanup]> (<["use_salt" := use_salt]> ∅).

(** An instance like [self] over the annotation index [c]. *)
Definition with_coco (self : WiderPedestrian) (c : COCO) : WiderPedestrian :=
  {| name := name self; cache_path := cache_path self; _roidb := _roidb self;
     config := config self; _year := _year self; _image_set := _image_set self;
     _devkit_path := _devkit_path self; _use_cache := _use_cache self;
     _ann_path := _ann_path self; _data_path := _data_path self;
     _COCO := c; _classes := _classes self;
     _class_to_ind := _class_to_ind self;
     _class_to_coco_cat_id := _class_to_coco_cat_id self;
     _image_index := _image_index self; _data_name := _data_name self |}.

(** An annotation whose width is 2^63: the sum [10 + (2^63 - 1)] does not
    fit an [int64]. *)
Definition overflow_obj : Annotation :=
  {| bbox := (Int 10, Int 10, Int (2 ^ 63), Int 10); area := Int 100;
     iscrowd := 0; category_id := 1 |}.

(** The demo world with that annotation on its image 7. *)
Definition overflow_coco : COCO :=
  {| loadCats := loadCats demo_coco;
     getImgIds := getImgIds demo_coco;
     loadImgs := loadImgs demo_coco;
     loadAnns := λ i, if i =? 7 then [overflow_obj] else loadAnns demo_coco i;
     COCOeval_run := COCOeval_run demo_coco |}.

Definition overflow_ds : WiderPedestrian := with_coco demo_ds overflow_coco.

(** A world with two categories and one image, whose annotations have
    float coordinates, a crowd flag, and an area that float32 cannot hold
    exactly. *)
Definition street_coco : COCO :=
  {| loadCats := [ {| cat_name := "pedestrian"; cat_id := 1 |};
                   {| cat_name := "cyclist"; cat_id := 2 |} ];
     getImgIds := [1];
     loadImgs := λ i,
       if i =? 1 then Some {| im_width := 100; im_height := 80 |} else None;
     loadAnns := λ i,
       if i =? 1 then
         [ {| bbox := (Float (21 # 2), Float (16 # 5), Float (81 # 4), Int 10);
              area := Float (405 # 2); iscrowd := 0; category_id := 2 |};
           {| bbox := (Int (-5), Int 60, Int 30, Int 40); area := Int 1200;
              iscrowd := 1; category_id := 1 |};
           {| bbox := (Int 40, Int 5, Int 8, Int 20); area := Int 16777217;
              iscrowd := 0; category_id := 1 |} ]
       else [];
     COCOeval_run := λ _, raise IndexError |}.

Definition street_env : Env :=
  {| cfg_DATA_DIR := "data";
     imdb_cache_path := "data/cache";
     COCO_ctor := λ _, Some street_coco |}.

(** The instance [WiderPedestrian('val')] in that world. *)
Definition street_ds : WiderPedestrian :=
  {| name := "WiderPedestrian_val";
     cache_path := "data/cache";
     _roidb := None;
     config := <["cleanup" := true]> (<["use_salt" := true]> ∅);
     _year := PInt 2018;
     _image_set := "val";
     _devkit_path := "data/WiderPedestrian";
     _use_cache := true;
     _ann_path := "annotations";
     _data_path := "data/WiderPedestrian";
     _COCO := street_coco;
     _classes := ["__background__"; "pedestrian"; "cyclist"];
     _class_to_ind := <["cyclist" := 2%nat]> (<["pedestrian" := 1%nat]>
                        (<["__background__" := 0%nat]> ∅));
     _class_to_coco_cat_id := <["cyclist" := 2]> (<["pedestrian" := 1]> ∅);
     _image_index := [1];
     _data_name := "val" |}.

(** The record of its image. *)
Definition street_record : ImageRecord :=
  {| width := 100;
     height := 80;
     boxes := [ {| x1 := 10; y1 := 3; x2 := 29; y2 := 12 |};
                {| x1 := 0; y1 := 60; x2 := 29; y2 := 79 |};
                {| x1 := 40; y1 := 5; x2 := 47; y2 := 24 |} ];
     gt_classes := [2%nat; 1%nat; 1%nat];
     gt_overlaps := [[0; 0; 1]; [-1; -1; -1]; [0; 1; 0]];
     flipped := false;
     seg_areas := [f32 (405 # 2); f32 1200; f32 16777216] |}.

(** An instance like [self] whose year is the string [y]. *)
Definition with_year (self : WiderPedestrian) (y : string) : WiderPedestrian :=
  {| name := name self; cache_path := cache_path self; _roidb := _roidb self;
     config := config self; _year := PStr y; _image_set := _image_set self;
     _devkit_path := _devkit_path self; _use_cache := _use_cache self;
     _ann_path := _ann_path self; _data_path := _data_path self;
     _COCO := _COCO self; _classes := _classes self;
     _class_to_ind := _class_to_ind self;
     _class_to_coco_cat_id := _class_to_coco_cat_id self;
     _image_index := _image_index self; _data_name := _data_name self |}.

(** A disk that holds the picture of image 93 of the demo world. *)
Definition demo_disk : FS :=
  <["data/WiderPedestrian/JPEGImages/img00093.jpg" := OtherFile]> ∅.

(** An annotation index with two very wide images: image 1 is 200000
    pixels wide, image 2 is 70000 pixels wide. *)
Definition wide_coco : COCO :=
  {| loadCats := [ {| cat_name := "pedestrian"; cat_id := 1 |} ];
     getImgIds := [1; 2];
     loadImgs := λ i,
       if i =? 1 then Some {| im_width := 200000; im_height := 100 |}
       else if i =? 2 then Some {| im_width := 70000; im_height := 100 |}
       else None;
     loadAnns := λ i,
       if i =? 1 then
         [ {| bbox := (Int 70000, Int 10, Int 10, Int 10); area := Int 100; iscrowd := 0; category_id := 1 |} ]
       else if i =? 2 then
         [ {| bbox := (Int 0, Int 0, Int 5001, Int 11); area := Int 55011; iscrowd := 0; category_id := 1 |} ]
       else [];
     COCOeval_run := λ _, raise IndexError |}.

Definition wide_env : Env :=
  {| cfg_DATA_DIR := "data";
     imdb_cache_path := "data/cache";
     COCO_ctor := λ _, Some wide_coco |}.

(** ** Further methods *)

(** [image_id_at(i)]. *)
Definition image_id_at (self : WiderPedestrian) (i : Z) : Result Z :=
  getitem_int (_image_index self) i.

(** A world with two devkits: the annotation file under [other] is the
    index of the wide images, every other one the demo index. *)
Definition two_devkits_env : Env :=
  {| cfg_DATA_DIR := "data";
     imdb_cache_path := "data/cache";
     COCO_ctor := λ path,
       if bool_decide (path = "other/annotations/WiderPedestrian_val.json")
       then Some wide_coco
       else Some demo_coco |}.

(** Reading a zero-filled number back: leading zeros are dropped (one zero
    is kept when nothing else is left), after the sign when there is one. *)
Fixpoint strip_zeros (s : string) : string :=
  match s with
  | String c rest =>
      if bool_decide (c = "0"%char)
      then (if bool_decide (rest = "") then s else strip_zeros rest)
      else s
  | EmptyString => s
  end.

Definition unzfill (s : string) : string :=
  match s with
  | String c rest =>
      if bool_decide (c = "-"%char) then String c (strip_zeros rest)
      else strip_zeros s
  | EmptyString => s
  end.

(** The characters [1] to [9]. *)
Definition nonzero_digit (c : ascii) : Prop :=
  ∃ k : N, (1 ≤ k ≤ 9)%N ∧ c = pretty_N_char k.
(** * Properties *)

(** ** The error monad *)

Lemma bind_inr {A B} (m : Result A) (f : A → Result B) (b : B) :
  (m ≫= f) = inr b ↔ ∃ a, m = inr a ∧ f a = inr b.
Proof.
  destruct m as [e|a]; simpl; split.
  - discriminate.
  - intros (a & Ha & _). discriminate.
  - eauto.
  - intros (a' & Ha & Hf). congruence.
Qed.

Lemma getitem_inr `{Countable K} {V} (d : gmap K V) (k : K) (v : V) :
  getitem d k = inr v ↔ d !! k = Some v.
Proof. unfold getitem. destruct (d !! k); split; congruence. Qed.

Lemma index_inr {A} (l : list A) (i : nat) (a : A) :
  index l i = inr a ↔ l !! i = Some a.
Proof. unfold index. destruct (l !! i); split; congruence. Qed.

Lemma mapM_inr {A B} (f : A → Result B) (l : list A) (ys : list B) :
  mapM f l = inr ys ↔ Forall2 (λ x y, f x = inr y) l ys.
Proof.
  revert ys. induction l as [|x l IH]; intros ys; simpl.
  - split.
    + intros [= <-]. constructor.
    + intros Hnil. apply Forall2_nil_inv_l in Hnil. by subst.
  - rewrite bind_inr. split.
    + intros (y & Hy & Hrest). apply bind_inr in Hrest as (ys' & Hys & [= <-]).
      constructor; [done | by apply IH].
    + intros Hall. apply Forall2_cons_inv_l in Hall as (y & ys' & Hy & Hys & ->).
      exists y. split; [done|]. apply bind_inr. exists ys'. split; [by apply IH | done].
Qed.

Lemma mapM_length {A B} (f : A → Result B) (l : list A) (ys : list B) :
  mapM f l = inr ys → length ys = length l.
Proof. intros Hm. apply mapM_inr in Hm. symmetry. by eapply Forall2_length. Qed.

Lemma mapM_lookup {A B} (f : A → Result B) (l : list A) (ys : list B) i x :
  mapM f l = inr ys → l !! i = Some x → ∃ y, ys !! i = Some y ∧ f x = inr y.
Proof.
  intros Hm Hx. apply mapM_inr in Hm.
  destruct (Forall2_lookup_l _ _ _ _ _ Hm Hx) as (y & Hy & Hf). eauto.
Qed.

(** ** Numbers *)

Lemma num_val_np_max0 v : (num_val (np_max0 v) == Qmax 0 (num_val v))%Q.
Proof.
  destruct v as [z|q]; simpl.
  - destruct (Z.max_spec 0 z) as [[Hlt ->]|[Hle ->]].
    + symmetry. apply Q.max_r. change 0%Q with (inject_Z 0). rewrite <- Zle_Qle. lia.
    + symmetry. apply Q.max_l. change 0%Q with (inject_Z 0). rewrite <- Zle_Qle. lia.
  - destruct (Qle_bool 0 q) eqn:Hq.
    + symmetry. apply Q.max_r. by apply Qle_bool_iff.
    + symmetry. apply Q.max_l. apply Qlt_le_weak, Qnot_le_lt. rewrite <- Qle_bool_iff. congruence.
Qed.

Lemma np_max0_nonneg v : (0 <= num_val (np_max0 v))%Q.
Proof. rewrite num_val_np_max0. apply Q.le_max_l. Qed.

Lemma num_val_py_sub1 v : (num_val (py_sub1 v) == num_val v - 1)%Q.
Proof.
  destruct v as [z|q]; simpl.
  - unfold Z.sub. rewrite inject_Z_plus. reflexivity.
  - apply Qred_correct.
Qed.

Lemma num_val_np_min n v : (num_val (np_min n v) == Qmin (inject_Z n) (num_val v))%Q.
Proof.
  destruct v as [z|q]; simpl.
  - destruct (Z.min_spec n z) as [[Hlt ->]|[Hle ->]].
    + symmetry. apply Q.min_l. rewrite <- Zle_Qle. lia.
    + symmetry. apply Q.min_r. rewrite <- Zle_Qle. lia.
  - destruct (Qle_bool (inject_Z n) q) eqn:Hq.
    + symmetry. apply Q.min_l. by apply Qle_bool_iff.
    + symmetry. apply Q.min_r. apply Qlt_le_weak, Qnot_le_lt. rewrite <- Qle_bool_iff. congruence.
Qed.

Lemma np_min_le n v : (num_val (np_min n v) <= inject_Z n)%Q.
Proof. rewrite num_val_np_min. apply Q.le_min_l. Qed.

Lemma np_ge_true a b : np_ge a b = true ↔ (num_val b <= num_val a)%Q.
Proof.
  destruct a as [x|p], b as [y|q]; simpl; rewrite ?Qle_bool_iff; try done.
  rewrite Z.leb_le. by rewrite Zle_Qle.
Qed.

Lemma py_gt0_true v : py_gt0 v = true ↔ (0 < num_val v)%Q.
Proof.
  destruct v as [z|q]; simpl.
  - rewrite Z.ltb_lt. change 0%Q with (inject_Z 0). by rewrite Zlt_Qlt.
  - rewrite negb_true_iff. split.
    + intros Hq. apply Qnot_le_lt. rewrite <- Qle_bool_iff. congruence.
    + intros Hq. destruct (Qle_bool q 0) eqn:Hb; [|done].
      apply Qle_bool_iff in Hb. exfalso. by apply (Qlt_not_le _ _ Hq).
Qed.

Lemma wrap64_small z : - 2 ^ 63 ≤ z < 2 ^ 63 → wrap64 z = z.
Proof. intros Hz. unfold wrap64. rewrite Z.mod_small by lia. lia. Qed.

Lemma wrap64_high z : 2 ^ 63 ≤ z < 2 ^ 64 → wrap64 z = z - 2 ^ 64.
Proof.
  intros Hz. unfold wrap64.
  replace (z + 2 ^ 63) with ((z - 2 ^ 63) + 1 * 2 ^ 64) by lia.
  rewrite Z.mod_add by lia. rewrite Z.mod_small by lia. lia.
Qed.

Lemma num_val_np_add a b :
  match a, b with
  | Int x, Int y => int64_range (x + y)
  | _, _ => True
  end →
  (num_val (np_add a b) == num_val a + num_val b)%Q.
Proof.
  destruct a as [x|p], b as [y|q]; simpl; intros Hr; try apply Qred_correct.
  rewrite wrap64_small by done. by rewrite inject_Z_plus.
Qed.

Lemma Qtrunc_floor q : (0 <= q)%Q → Qtrunc q = Qfloor q.
Proof.
  destruct q as [n d]. unfold Qle, Qtrunc, Qfloor. simpl. intros Hn.
  apply Z.quot_div_nonneg; lia.
Qed.

Lemma num_trunc_floor v : (0 <= num_val v)%Q → num_trunc v = Qfloor (num_val v).
Proof.
  destruct v as [z|q]; cbn [num_trunc num_val]; intros Hv.
  - by rewrite Qfloor_Z.
  - by apply Qtrunc_floor.
Qed.

Lemma num_trunc_mono a b :
  (0 <= num_val a)%Q → (num_val a <= num_val b)%Q →
  0 ≤ num_trunc a ≤ num_trunc b.
Proof.
  intros Ha Hab.
  rewrite !num_trunc_floor by (done || by eapply Qle_trans).
  split; [|by apply Qfloor_resp_le].
  rewrite <- (Qfloor_Z 0). by apply Qfloor_resp_le.
Qed.

Lemma num_trunc_le v n :
  (0 <= num_val v)%Q → (num_val v <= inject_Z n)%Q → num_trunc v ≤ n.
Proof.
  intros Hv Hn. rewrite num_trunc_floor by done.
  rewrite <- (Qfloor_Z n). by apply Qfloor_resp_le.
Qed.

(** ** Dictionaries and the class tables *)

Lemma foldl_insert_notin `{Countable K} {V} (l : list (K * V)) (k : K) :
  k ∉ l.*1 →
  ∀ d : gmap K V, foldl (λ d kv, <[kv.1 := kv.2]> d) d l !! k = d !! k.
Proof.
  induction l as [|[k' v'] l IH]; intros Hk d; [done|].
  simpl in *. apply not_elem_of_cons in Hk as [Hne Hk].
  rewrite IH by done. by rewrite lookup_insert_ne.
Qed.

Lemma dict_of_list_is_Some `{Countable K} {V} (l : list (K * V)) (k : K) :
  k ∈ l.*1 → is_Some (dict_of_list l !! k).
Proof.
  unfold dict_of_list.
  assert (∀ d : gmap K V, k ∈ l.*1 ∨ is_Some (d !! k) →
            is_Some (foldl (λ d kv, <[kv.1 := kv.2]> d) d l !! k)) as Hgen.
  { induction l as [|[k' v] l IH]; intros d Hk; simpl.
    - destruct Hk as [Hk|Hk]; [by apply elem_of_nil in Hk | done].
    - apply IH. destruct (decide (k = k')) as [->|Hne].
      + right. rewrite lookup_insert_eq. eauto.
      + destruct Hk as [Hk|Hk].
        * left. simpl in Hk. apply elem_of_cons in Hk as [?|?]; done.
        * right. by rewrite lookup_insert_ne. }
  intros Hk. apply Hgen. by left.
Qed.

Lemma dict_of_list_NoDup `{Countable K} {V} (l : list (K * V)) (k : K) (v : V) :
  NoDup l.*1 → (k, v) ∈ l → dict_of_list l !! k = Some v.
Proof.
  unfold dict_of_list. generalize (∅ : gmap K V).
  induction l as [|[k' v'] l IH]; intros d Hnd Hin.
  - by apply elem_of_nil in Hin.
  - simpl in *. apply NoDup_cons in Hnd as [Hk' Hnd].
    apply elem_of_cons in Hin as [[= -> ->]|Hin].
    + rewrite foldl_insert_notin by done. apply lookup_insert_eq.
    + by apply IH.
Qed.

Lemma dict_of_list_elem `{Countable K} {V} (l : list (K * V)) (k : K) (v : V) :
  dict_of_list l !! k = Some v → (k, v) ∈ l.
Proof.
  unfold dict_of_list.
  assert (∀ d : gmap K V,
            foldl (λ d kv, <[kv.1 := kv.2]> d) d l !! k = Some v →
            (k, v) ∈ l ∨ d !! k = Some v) as Hgen.
  { induction l as [|[k' v'] l IH]; intros d Hlook; [by right|].
    simpl in Hlook. apply IH in Hlook as [Hin|Hlook].
    - left. by apply elem_of_cons; right.
    - destruct (decide (k' = k)) as [->|Hne].
      + rewrite lookup_insert_eq in Hlook. injection Hlook as ->.
        left. by apply elem_of_cons; left.
      + rewrite lookup_insert_ne in Hlook by done. by right. }
  intros Hlook. by destruct (Hgen ∅ Hlook) as [?|?].
Qed.

Lemma pyzip_fmap {A B C} (f : A → B) (g : A → C) (l : list A) :
  pyzip (f <$> l) (g <$> l) = (λ a, (f a, g a)) <$> l.
Proof. induction l as [|a l IH]; [done|]. simpl. by f_equal. Qed.

Lemma pyzip_fmap_fst {A B C} (f : A → B) (g : A → C) (l : list A) :
  (pyzip (f <$> l) (g <$> l)).*1 = f <$> l.
Proof. induction l as [|a l IH]; [done|]. simpl. by f_equal. Qed.

Lemma pyzip_seq_fst {A} (l : list A) (k : nat) :
  (pyzip l (seq k (length l))).*1 = l.
Proof.
  revert k. induction l as [|a l IH]; intros k; [done|]. simpl. by f_equal.
Qed.

Lemma pyzip_seq_bound {A} (l : list A) (k : nat) (a : A) (i : nat) :
  (a, i) ∈ pyzip l (seq k (length l)) → (k ≤ i < k + length l)%nat.
Proof.
  revert k. induction l as [|b l IH]; intros k Hin.
  - by apply elem_of_nil in Hin.
  - simpl in Hin. apply elem_of_cons in Hin as [[= -> ->]|Hin]; simpl; [lia|].
    apply IH in Hin. lia.
Qed.

Lemma pyzip_seq_lookup {A} (l : list A) (k i : nat) (a : A) :
  l !! i = Some a → (a, (k + i)%nat) ∈ pyzip l (seq k (length l)).
Proof.
  revert k i. induction l as [|b l IH]; intros k i Hi; [done|].
  destruct i as [|i]; simpl in *.
  - injection Hi as ->. rewrite Nat.add_0_r. by apply elem_of_cons; left.
  - apply elem_of_cons; right.
    replace (k + S i)%nat with (S k + i)%nat by lia. by apply IH.
Qed.

Lemma built_class_table_covers self cls :
  built_class_table self →
  cls ∈ _classes self → cls ≠ "__background__" →
  is_Some (_class_to_coco_cat_id self !! cls).
Proof.
  intros (Hclasses & Htable & _) Hin Hne.
  rewrite Hclasses in Hin. apply elem_of_cons in Hin as [?|Hin]; [done|].
  rewrite Htable. apply dict_of_list_is_Some.
  unfold getCatIds. by rewrite pyzip_fmap_fst.
Qed.

Lemma init_built_class_table env image_set devkit_path ann_path self :
  __init__ env image_set devkit_path ann_path = inr self → built_class_table self.
Proof.
  unfold __init__. intros Hinit.
  destruct (COCO_ctor env _) as [coco|]; [|done]. simpl in Hinit.
  injection Hinit as <-. done.
Qed.

Lemma built_class_table_dense self :
  built_class_table self →
  NoDup ("__background__" :: (cat_name <$> loadCats (_COCO self))) →
  (∀ i name, _classes self !! i = Some name → _class_to_ind self !! name = Some i)
  ∧ ∀ i c, loadCats (_COCO self) !! i = Some c →
      _classes self !! S i = Some (cat_name c)
      ∧ _class_to_ind self !! cat_name c = Some (S i)
      ∧ _class_to_coco_cat_id self !! cat_name c = Some (cat_id c).
Proof.
  intros (Hclasses & Hcat & Hind) Hnd.
  assert (∀ i name, _classes self !! i = Some name →
            _class_to_ind self !! name = Some i) as Hdense.
  { intros i name Hi. rewrite Hind. apply dict_of_list_NoDup.
    - rewrite pyzip_seq_fst. by rewrite Hclasses.
    - by apply (pyzip_seq_lookup _ 0). }
  split; [done|]. intros i c Hc.
  assert (_classes self !! S i = Some (cat_name c)) as Hname.
  { rewrite Hclasses. simpl. by rewrite list_lookup_fmap, Hc. }
  split_and!; [done | by apply Hdense |].
  rewrite Hcat. apply NoDup_cons in Hnd as [_ Hnd]. apply dict_of_list_NoDup.
  - unfold getCatIds. by rewrite pyzip_fmap_fst.
  - unfold getCatIds. rewrite pyzip_fmap. apply list_elem_of_fmap.
    exists c. split; [done|]. by eapply list_elem_of_lookup_2.
Qed.

(** ** The sanitising loop *)

Lemma valid_objs_filter w h objs :
  valid_objs w h objs
  = (λ obj, (obj, clean_bbox w h obj)) <$> filter (λ obj, keep_obj w h obj = true) objs.
Proof.
  induction objs as [|obj objs IH]; [done|]. simpl.
  rewrite filter_cons. destruct (keep_obj w h obj) eqn:Hk.
  - rewrite decide_True by done. simpl. by rewrite IH.
  - rewrite decide_False by done. done.
Qed.

Lemma keep_obj_true w h obj :
  keep_obj w h obj = true
  ↔ (0 < num_val (area obj))%Q
    ∧ (num_val (cx1 (clean_bbox w h obj)) <= num_val (cx2 (clean_bbox w h obj)))%Q
    ∧ (num_val (cy1 (clean_bbox w h obj)) <= num_val (cy2 (clean_bbox w h obj)))%Q.
Proof.
  unfold keep_obj. rewrite !andb_true_iff, py_gt0_true, !np_ge_true. tauto.
Qed.

Lemma clean_bbox_in_image w h obj :
  keep_obj w h obj = true → clean_in_image w h (clean_bbox w h obj).
Proof.
  rewrite keep_obj_true. unfold clean_in_image, clean_bbox.
  destruct (bbox obj) as [[[bx by_] bw] bh]. simpl. intros (_ & Hx & Hy).
  split_and!; try done; apply np_max0_nonneg || apply np_min_le.
Qed.

Lemma valid_objs_in_image w h objs :
  Forall (λ oc, clean_in_image w h oc.2) (valid_objs w h objs).
Proof.
  induction objs as [|obj objs IH]; simpl; [constructor|].
  destruct (keep_obj w h obj) eqn:Hk; [|done].
  constructor; [|done]. by apply clean_bbox_in_image.
Qed.

Lemma no_wrap_add o s :
  no_wrap o s →
  (num_val (np_add (np_max0 o) (np_max0 (py_sub1 s)))
   == Qmax 0 (num_val o) + Qmax 0 (num_val s - 1))%Q.
Proof.
  intros Hw. rewrite num_val_np_add.
  - rewrite !num_val_np_max0. by rewrite num_val_py_sub1.
  - destruct o as [b|p], s as [w|q]; simpl in *; try done.
    unfold int64_range. lia.
Qed.

Lemma clean_bbox_spec W H obj :
  no_overflow obj → clipped_as_spec W H (obj, clean_bbox W H obj).
Proof.
  unfold no_overflow, clipped_as_spec, spec_clip, clean_bbox. cbn [fst snd].
  destruct (bbox obj) as [[[bx by_] bw] bh]. cbn [fst snd cx1 cy1 cx2 cy2].
  intros [Hx Hy].
  split_and!.
  - apply num_val_np_max0.
  - apply num_val_np_max0.
  - rewrite num_val_np_min. by rewrite no_wrap_add.
  - rewrite num_val_np_min. by rewrite no_wrap_add.
Qed.

Lemma keep_obj_spec W H obj :
  no_overflow obj → keep_obj W H obj = true ↔ spec_keep W H obj.
Proof.
  intros Hno. rewrite keep_obj_true. unfold spec_keep.
  destruct (clean_bbox_spec W H obj Hno) as (H1 & H2 & H3 & H4). simpl in *.
  by rewrite H1, H2, H3, H4.
Qed.

Lemma valid_objs_spec W H objs :
  Forall no_overflow objs →
  (valid_objs W H objs).*1 = filter (spec_keep W H) objs
  ∧ Forall (clipped_as_spec W H) (valid_objs W H objs).
Proof.
  induction 1 as [|obj objs Hno _ [IH1 IH2]]; [done|]. simpl.
  rewrite filter_cons. pose proof (keep_obj_spec W H obj Hno) as Hk.
  destruct (keep_obj W H obj).
  - rewrite decide_True by (by apply Hk). simpl. split; [by f_equal|].
    constructor; [|done]. by apply clean_bbox_spec.
  - rewrite decide_False; [done|]. intros Hs. apply Hk in Hs. done.
Qed.

Lemma to_uint16_small z : 0 ≤ z < 65536 → to_uint16 z = z.
Proof. intros Hz. unfold to_uint16. by apply Z.mod_small. Qed.

Lemma trunc_box_in_image w h b :
  clean_in_image w h b → box_in_image w h (trunc_box b).
Proof.
  intros (H1 & H2 & H3 & H4 & H5 & H6). unfold box_in_image, trunc_box. simpl.
  pose proof (num_trunc_mono _ _ H1 H2).
  pose proof (num_trunc_mono _ _ H4 H5).
  pose proof (num_trunc_le (cx2 b) (w - 1)).
  pose proof (num_trunc_le (cy2 b) (h - 1)).
  assert (0 <= num_val (cx2 b))%Q by (by apply (Qle_trans _ (num_val (cx1 b)))).
  assert (0 <= num_val (cy2 b))%Q by (by apply (Qle_trans _ (num_val (cy1 b)))).
  split_and!; try lia; auto.
Qed.

Lemma store_box_small w h b :
  w ≤ 65536 → h ≤ 65536 → clean_in_image w h b → store_box b = trunc_box b.
Proof.
  intros Hw Hh Hin. apply trunc_box_in_image in Hin as (H1 & H2 & H3 & H4 & H5 & H6).
  unfold store_box, astype_uint16, trunc_box in *. simpl in *.
  rewrite !to_uint16_small by lia. done.
Qed.

Lemma valid_objs_stored w h objs :
  w ≤ 65536 → h ≤ 65536 →
  store_box <$> (valid_objs w h objs).*2 = trunc_box <$> (valid_objs w h objs).*2
  ∧ Forall (box_in_image w h) (store_box <$> (valid_objs w h objs).*2).
Proof.
  intros Hw Hh. pose proof (valid_objs_in_image w h objs) as Hin.
  induction Hin as [|oc l Hoc _ [IH1 IH2]]; [done|]. simpl.
  rewrite (store_box_small w h) by done. split; [by f_equal|].
  constructor; [|done]. by apply trunc_box_in_image.
Qed.

(** ** The filling loop *)

Lemma insert_at_length {A} (l k : list A) (x y : A) (i : nat) :
  i = length l → <[i := x]> (l ++ y :: k) = l ++ x :: k.
Proof. intros ->. induction l as [|a l IH]; simpl; [done | by f_equal]. Qed.

Lemma alter_at_length {A} (f : A → A) (l k : list A) (y : A) (i : nat) :
  i = length l → alter f i (l ++ y :: k) = l ++ f y :: k.
Proof. intros ->. induction l as [|a l IH]; simpl; [done | by f_equal]. Qed.

Lemma arrays_of_rows_cons pre row rows :
  arrays_of_rows (arrays_of_rows pre [row]) rows = arrays_of_rows pre (row :: rows).
Proof. unfold arrays_of_rows. simpl. by rewrite <- !app_assoc. Qed.

Lemma pad_arrays_snoc pre row n ncls :
  pad_arrays (arrays_of_rows pre [row]) n ncls
  = {| a_boxes := a_boxes pre ++ row.1.1.1 :: replicate n zero_box;
       a_gt_classes := a_gt_classes pre ++ row.1.1.2 :: replicate n 0%nat;
       a_overlaps := a_overlaps pre ++ row.1.2 :: replicate n (replicate ncls 0);
       a_seg_areas := a_seg_areas pre ++ row.2 :: replicate n (f32 0) |}.
Proof. unfold pad_arrays, arrays_of_rows. simpl. by rewrite <- !app_assoc. Qed.

Lemma fill_row_pad table ncls ix obj cb pre n :
  pre_len pre ix →
  fill_row table ncls ix obj cb (pad_arrays pre (S n) ncls)
  = (row ← row_of table ncls (obj, cb); ok (pad_arrays (arrays_of_rows pre [row]) n ncls)).
Proof.
  intros (Hb & Hc & Ho & Hs). unfold fill_row, row_of. simpl.
  destruct (getitem table (category_id obj)) as [e|cls]; simpl; [done|].
  subst ix.
  destruct (truthy (iscrowd obj)); [|destruct (decide (cls < ncls)%nat); [|done]];
    simpl; rewrite pad_arrays_snoc; simpl;
    rewrite ?insert_at_length, ?alter_at_length by congruence; done.
Qed.

Lemma fill_arrays_pad table ncls objs :
  ∀ ix pre, pre_len pre ix →
    fill_arrays table ncls ix objs (pad_arrays pre (length objs) ncls)
    = (rows ← mapM (row_of table ncls) objs; ok (arrays_of_rows pre rows)).
Proof.
  induction objs as [|[obj cb] objs IH]; intros ix pre Hpre.
  - simpl. unfold pad_arrays, arrays_of_rows. simpl. rewrite !app_nil_r.
    by destruct pre.
  - simpl. rewrite fill_row_pad by done.
    destruct (row_of table ncls (obj, cb)) as [e|row]; simpl; [done|].
    rewrite (IH (S ix)).
    + destruct (mapM (row_of table ncls) objs) as [e|rows]; simpl; [done|].
      by rewrite arrays_of_rows_cons.
    + destruct Hpre as (Hb & Hc & Ho & Hs).
      unfold pre_len, arrays_of_rows. simpl. rewrite !length_app. simpl. lia.
Qed.

(** The loop of lines 168-178, run on freshly allocated arrays, writes row
    [ix] from the [ix]-th kept annotation and nothing else. *)
Lemma fill_arrays_rows table ncls objs :
  fill_arrays table ncls 0 objs (np_zeros (length objs) ncls)
  = (rows ← mapM (row_of table ncls) objs; ok (arrays_of_rows no_arrays rows)).
Proof. by apply (fill_arrays_pad table ncls objs 0 no_arrays). Qed.

(** ** The record of one image *)

Lemma validate_boxes_inr bs w h :
  validate_boxes bs w h = inr () ↔ Forall (box_in_image w h) bs.
Proof.
  unfold validate_boxes.
  destruct (forallb _ bs) eqn:Hall.
  - split; [intros _|done]. rewrite forallb_forall in Hall.
    apply Forall_forall. intros b Hb. apply list_elem_of_In, Hall in Hb.
    rewrite !andb_true_iff, !Z.leb_le, !Z.ltb_lt in Hb. unfold box_in_image. lia.
  - split; [done|]. intros HF. exfalso.
    assert (forallb (λ b, (0 <=? x1 b) && (0 <=? y1 b) && (x1 b <=? x2 b)
                         && (y1 b <=? y2 b) && (x2 b <? w) && (y2 b <? h)) bs = true)
      as Htrue; [|congruence].
    apply forallb_forall. intros b Hb. apply list_elem_of_In in Hb.
    rewrite Forall_forall in HF. specialize (HF b Hb). unfold box_in_image in HF.
    rewrite !andb_true_iff, !Z.leb_le, !Z.ltb_lt. lia.
Qed.

(** What a successful call of [_load_coco_annotation] went through. *)
Lemma load_coco_annotation_inr self index r :
  _load_coco_annotation self index = inr r →
  ∃ im table rows,
    loadImgs (_COCO self) index = Some im
    ∧ coco_cat_id_to_class_ind self = inr table
    ∧ mapM (row_of table (num_classes self))
           (valid_objs (im_width im) (im_height im) (loadAnns (_COCO self) index))
      = inr rows
    ∧ Forall (box_in_image (im_width im) (im_height im)) ((λ r, r.1.1.1) <$> rows)
    ∧ r = {| width := im_width im;
             height := im_height im;
             boxes := (λ r, r.1.1.1) <$> rows;
             gt_classes := (λ r, r.1.1.2) <$> rows;
             gt_overlaps := (λ r, r.1.2) <$> rows;
             flipped := false;
             seg_areas := (λ r, r.2) <$> rows |}.
Proof.
  unfold _load_coco_annotation. intros Hload.
  destruct (loadImgs (_COCO self) index) as [im|]; [|done]. simpl in Hload.
  apply bind_inr in Hload as (table & Htable & Hload).
  rewrite fill_arrays_rows in Hload.
  apply bind_inr in Hload as (a & Ha & Hload).
  apply bind_inr in Ha as (rows & Hrows & [= <-]).
  apply bind_inr in Hload as ([] & Hval & [= <-]).
  apply validate_boxes_inr in Hval. simpl in Hval.
  exists im, table, rows. done.
Qed.

Lemma row_of_box table ncls oc row :
  row_of table ncls oc = inr row → row.1.1.1 = store_box oc.2.
Proof.
  unfold row_of. intros Hrow. apply bind_inr in Hrow as (cls & _ & Hrow).
  destruct (truthy _); [|destruct (decide _)]; by simplify_eq.
Qed.

Lemma rows_boxes table ncls objs rows :
  mapM (row_of table ncls) objs = inr rows →
  (λ r, r.1.1.1) <$> rows = store_box <$> objs.*2.
Proof.
  intros Hm. apply mapM_inr in Hm.
  induction Hm as [|oc row objs rows Hrow _ IH]; [done|].
  simpl. f_equal; [by eapply row_of_box | done].
Qed.




Lemma one_hot_lookup (ncls cls j : nat) :
  (cls < ncls)%nat → (j < ncls)%nat →
  <[cls := 1]> (replicate ncls 0) !! j = Some (if decide (j = cls) then 1 else 0).
Proof.
  intros Hcls Hj. case_decide as Heq.
  - subst j. apply list_lookup_insert_eq. by rewrite length_replicate.
  - rewrite list_lookup_insert_ne by done. by apply lookup_replicate_2.
Qed.

Lemma row_of_inr table ncls obj cb row :
  row_of table ncls (obj, cb) = inr row →
  ∃ cls, table !! category_id obj = Some cls
    ∧ row.1.1.2 = cls
    ∧ row.2 = to_float32 (area obj)
    ∧ if truthy (iscrowd obj)
      then row.1.2 = replicate ncls (-1)
      else (cls < ncls)%nat ∧ row.1.2 = <[cls := 1]> (replicate ncls 0).
Proof.
  unfold row_of. simpl. intros Hrow.
  apply bind_inr in Hrow as (cls & Hcls & Hrow).
  apply getitem_inr in Hcls. exists cls.
  destruct (truthy (iscrowd obj)); [|destruct (decide (cls < ncls)%nat)];
    by simplify_eq.
Qed.

(** Every entry of the table of lines 164-166 comes from a class name of
    the class tuple, the background apart: the key is the category
    identifier of the name, the value its class index. *)
Lemma coco_cat_id_to_class_ind_names self table id cls :
  coco_cat_id_to_class_ind self = inr table →
  table !! id = Some cls →
  ∃ name, name ∈ tail (_classes self)
    ∧ _class_to_coco_cat_id self !! name = Some id
    ∧ _class_to_ind self !! name = Some cls.
Proof.
  intros Htable Hlook. unfold coco_cat_id_to_class_ind in Htable.
  apply bind_inr in Htable as (pairs & Hpairs & [= <-]).
  apply dict_of_list_elem in Hlook.
  apply list_elem_of_lookup in Hlook as [i Hi].
  apply mapM_inr in Hpairs.
  destruct (Forall2_lookup_r _ _ _ _ _ Hpairs Hi) as (name & Hname & Hstep).
  apply bind_inr in Hstep as (k & Hk & Hstep).
  apply bind_inr in Hstep as (v & Hv & [= -> ->]).
  apply getitem_inr in Hk. apply getitem_inr in Hv.
  exists name. split_and!; [by eapply list_elem_of_lookup_2 | done | done].
Qed.

(** With the class tables of [__init__], distinct category names (none of
    them the background) and distinct category identifiers, a class name
    that carries the identifier of the i-th category is the name of that
    category, and its class index is i + 1. *)
Lemma built_class_table_category self name id cls i c :
  built_class_table self →
  NoDup ("__background__" :: (cat_name <$> loadCats (_COCO self))) →
  NoDup (getCatIds (_COCO self)) →
  name ∈ tail (_classes self) →
  _class_to_coco_cat_id self !! name = Some id →
  _class_to_ind self !! name = Some cls →
  loadCats (_COCO self) !! i = Some c → cat_id c = id →
  name = cat_name c ∧ cls = S i ∧ _classes self !! cls = Some name.
Proof.
  intros Hbuilt Hnd Hids Hname Hk Hv Hc Hid.
  destruct (built_class_table_dense self Hbuilt Hnd) as [_ Hcats].
  destruct Hbuilt as (Hclasses & _ & _).
  rewrite Hclasses in Hname. simpl in Hname.
  apply list_elem_of_fmap in Hname as (c' & -> & Hc').
  apply list_elem_of_lookup in Hc' as [j Hj].
  destruct (Hcats j c' Hj) as (Hpos & Hind' & Hcat').
  rewrite Hcat' in Hk. injection Hk as Hk.
  rewrite Hind' in Hv. injection Hv as <-.
  assert (j = i) as ->.
  { apply (NoDup_lookup _ j i id Hids).
    - unfold getCatIds. rewrite list_lookup_fmap, Hj. simpl. by rewrite Hk.
    - unfold getCatIds. rewrite list_lookup_fmap, Hc. simpl. by rewrite Hid. }
  rewrite Hj in Hc. injection Hc as ->. done.
Qed.

(** C2.  Row [ix] of [gt_overlaps] belongs to the [ix]-th surviving
    annotation: it is -1 in every class when the annotation is a crowd
    annotation, and otherwise holds 1 at the annotation's dense class index
    and 0 everywhere else.  That index, also stored in [gt_classes], is the
    index [_class_to_ind] gives the class name whose category identifier in
    [_class_to_coco_cat_id] is the one of the annotation; with the class
    tables of [__init__], distinct category names and distinct category
    identifiers it is i + 1 for an annotation of the i-th category of the
    annotation index. *)
Theorem load_coco_annotation_overlaps self index r :
  _load_coco_annotation self index = inr r →
  ∃ table,
    coco_cat_id_to_class_ind self = inr table
    ∧ let kept := valid_objs (width r) (height r) (loadAnns (_COCO self) index) in
      let C := num_classes self in
      length (gt_overlaps r) = length kept
      ∧ ∀ ix obj cb, kept !! ix = Some (obj, cb) →
          ∃ name cls row,
            name ∈ tail (_classes self)
            ∧ _class_to_coco_cat_id self !! name = Some (category_id obj)
            ∧ _class_to_ind self !! name = Some cls
            ∧ table !! category_id obj = Some cls
            ∧ gt_classes r !! ix = Some cls
            ∧ gt_overlaps r !! ix = Some row
            ∧ length row = C
            ∧ (if truthy (iscrowd obj)
               then ∀ j, (j < C)%nat → row !! j = Some (-1)
               else (cls < C)%nat
                    ∧ ∀ j, (j < C)%nat →
                        row !! j = Some (if decide (j = cls) then 1 else 0))
            ∧ (built_class_table self →
               NoDup ("__background__" :: (cat_name <$> loadCats (_COCO self))) →
               NoDup (getCatIds (_COCO self)) →
               ∃ i c, loadCats (_COCO self) !! i = Some c
                 ∧ cat_id c = category_id obj
                 ∧ name = cat_name c
                 ∧ cls = S i
                 ∧ _classes self !! cls = Some name).
Proof.
  intros Hload.
  apply load_coco_annotation_inr in Hload
    as (im & table & rows & Him & Htable & Hrows & Hval & ->).
  exists table. simpl. split; [done|]. split.
  - rewrite length_fmap. by eapply mapM_length.
  - intros ix obj cb Hix.
    destruct (mapM_lookup _ _ _ _ _ Hrows Hix) as (row & Hrow & Hof).
    apply row_of_inr in Hof as (cls & Hcls & Hc & _ & Hov).
    destruct (coco_cat_id_to_class_ind_names self table _ _ Htable Hcls)
      as (name & Hname & Hk & Hv).
    exists name, cls, row.1.2. rewrite !list_lookup_fmap, Hrow. simpl.
    split_and!; try done; [by rewrite Hc| | |].
    + destruct (truthy (iscrowd obj)); [by rewrite Hov, length_replicate|].
      destruct Hov as [_ ->]. by rewrite length_insert, length_replicate.
    + destruct (truthy (iscrowd obj)).
      * intros j Hj. rewrite Hov. by apply lookup_replicate_2.
      * destruct Hov as [Hlt ->]. split; [done|].
        intros j Hj. by apply one_hot_lookup.
    + intros Hbuilt Hnd Hids.
      assert (category_id obj ∈ getCatIds (_COCO self)) as Hin.
      { destruct Hbuilt as (_ & Hcat & _). rewrite Hcat in Hk.
        apply dict_of_list_elem in Hk. unfold getCatIds in *.
        rewrite pyzip_fmap in Hk.
        apply list_elem_of_fmap in Hk as (c & [= _ ->] & Hc').
        apply list_elem_of_fmap. by exists c. }
      unfold getCatIds in Hin.
      apply list_elem_of_fmap in Hin as (c & Hid & Hc').
      apply list_elem_of_lookup in Hc' as [i Hi].
      exists i, c.
      destruct (built_class_table_category self name (category_id obj) cls i c)
        as (-> & -> & Hpos); done.
Qed.

Lemma load_coco_annotation_overlaps_witness :
  ∃ name cls row,
    _class_to_coco_cat_id street_ds !! name = Some 2
    ∧ _class_to_ind street_ds !! name = Some cls
    ∧ name = "cyclist" ∧ cls = 2%nat
    ∧ gt_classes street_record !! 0%nat = Some cls
    ∧ gt_overlaps street_record !! 0%nat = Some row
    ∧ row = [0; 0; 1]
    ∧ ∀ j, (j < 3)%nat → row !! j = Some (if decide (j = cls) then 1 else 0).
Proof.
  destruct (load_coco_annotation_overlaps street_ds 1 street_record)
    as (table & Htable & _ & Hrows).
  - vm_compute. reflexivity.
  - destruct (Hrows 0%nat
                {| bbox := (Float (21 # 2), Float (16 # 5), Float (81 # 4), Int 10);
                   area := Float (405 # 2); iscrowd := 0; category_id := 2 |}
                {| cx1 := Float (21 # 2); cy1 := Float (16 # 5);
                   cx2 := Float (119 # 4); cy2 := Float (61 # 5) |})
      as (name & cls & row & _ & Hk & Hv & _ & Hcls & Hrow & _ & [_ Hhot] & Hcat).
    + vm_compute. reflexivity.
    + destruct Hcat as (i & c & Hc & Hid & Hname & Hi & _).
      * exact (init_built_class_table street_env "val" None None street_ds eq_refl).
      * simpl. compute_done.
      * simpl. compute_done.
      * exists name, cls, row.
        assert (cls = 2%nat) as Hcls2 by (simpl in Hcls; congruence).
        assert (row = [0; 0; 1]) as Hrow2 by (simpl in Hrow; congruence).
        assert (name = "cyclist") as Hname2.
        { assert (i = 1%nat) as -> by lia. simpl in Hc. injection Hc as <-. done. }
        split_and!; done.
Defined.

(** ** The demo worlds *)

Example init_demo : __init__ demo_env "val" None None = inr demo_ds.
Proof. vm_compute. reflexivity. Qed.

Example load_demo_93 : _load_coco_annotation demo_ds 93 = inr demo_record_93.
Proof. vm_compute. reflexivity. Qed.

Example init_street : __init__ street_env "val" None None = inr street_ds.
Proof. vm_compute. reflexivity. Qed.

Example load_street_1 : _load_coco_annotation street_ds 1 = inr street_record.
Proof. vm_compute. reflexivity. Qed.

(** ** Horizontal flipping *)

Lemma flip_box_fits w b :
  w ≤ 65536 → box_fits w b →
  flip_box w b = {| x1 := w - x2 b - 1; y1 := y1 b; x2 := w - x1 b - 1; y2 := y2 b |}.
Proof.
  intros Hw (H0 & H12 & H2). unfold flip_box.
  rewrite !to_uint16_small by lia. done.
Qed.

Lemma flip_boxes_fit w bs :
  w ≤ 65536 → Forall (box_fits w) bs →
  flip_box w <$> bs
  = (λ b, {| x1 := w - x2 b - 1; y1 := y1 b; x2 := w - x1 b - 1; y2 := y2 b |}) <$> bs.
Proof.
  intros Hw Hall. induction Hall as [|b bs Hb _ IH]; [done|].
  simpl. f_equal; [by apply flip_box_fits | done].
Qed.

Lemma flip_entry_flippable r :
  flippable r → flip_entry (width r) r = inr (mirrored r).
Proof.
  intros [Hw Hall]. unfold flip_entry, mirrored.
  rewrite flip_boxes_fit by done.
  destruct (forallb _ _) eqn:Hcheck; [done|]. exfalso.
  apply not_true_iff_false in Hcheck. apply Hcheck.
  apply forallb_forall. intros b' Hb'. apply list_elem_of_In in Hb'.
  apply list_elem_of_fmap in Hb' as (b & -> & Hb).
  rewrite Forall_forall in Hall. destruct (Hall b Hb) as (H0 & H12 & H2).
  simpl. apply Z.leb_le. lia.
Qed.

Lemma flip_loop_flippable rdb :
  Forall flippable rdb →
  ∀ m k acc, (k + m ≤ length rdb)%nat →
    flip_loop (width <$> rdb) (seq k m) (rdb ++ acc)
    = inr (rdb ++ acc ++ (mirrored <$> take m (drop k rdb))).
Proof.
  intros Hall. induction m as [|m IH]; intros k acc Hlen.
  - simpl. by rewrite app_nil_r.
  - destruct (lookup_lt_is_Some_2 rdb k) as [r Hr]; [lia|].
    simpl. unfold index. rewrite lookup_app_l by lia. rewrite Hr. simpl.
    rewrite list_lookup_fmap, Hr. simpl.
    rewrite flip_entry_flippable by (eapply Forall_lookup_1; done). simpl.
    rewrite <- app_assoc. rewrite IH by lia.
    rewrite (drop_S _ _ _ Hr). simpl. by rewrite <- app_assoc.
Qed.

(** C3, as amended.  On a state whose roidb holds n records for an index of
    n identifiers, every record having width at most 65536 and boxes with
    0 <= x1 <= x2 <= width - 1, one call of [append_flipped_images]
    succeeds, touches no file, and leaves the roidb as the n originals
    followed, in order, by their mirrored records (x1' = width - x2 - 1,
    x2' = width - x1 - 1, everything else unchanged, flipped = true) and
    the index as the original index concatenated with itself; both have
    length 2n. *)
Theorem append_flipped_images_doubles self rdb n fs :
  _roidb self = Some rdb →
  length rdb = n →
  length (_image_index self) = n →
  Forall flippable rdb →
  ∃ self',
    append_flipped_images self fs = (inr self', fs)
    ∧ self' = set_roidb self (Some (rdb ++ (mirrored <$> rdb)))
                (_image_index self ++ _image_index self)
    ∧ _roidb self' = Some (rdb ++ (mirrored <$> rdb))
    ∧ _image_index self' = _image_index self ++ _image_index self
    ∧ length (rdb ++ (mirrored <$> rdb)) = (2 * n)%nat
    ∧ length (_image_index self') = (2 * n)%nat
    ∧ ∀ i r, (i < n)%nat → rdb !! i = Some r →
        (rdb ++ (mirrored <$> rdb)) !! i = Some r
        ∧ (rdb ++ (mirrored <$> rdb)) !! (n + i)%nat = Some (mirrored r).
Proof.
  intros Hroidb Hn Hidx Hall.
  eexists. split.
  - unfold append_flipped_images, _get_widths, roidb. rewrite Hroidb.
    unfold mbind, io_bind, mret, io_ret, lift. simpl. rewrite Hroidb.
    unfold num_images. rewrite Hidx, <- Hn.
    pose proof (flip_loop_flippable rdb Hall (length rdb) 0 []) as Hloop.
    rewrite app_nil_r in Hloop. rewrite Hloop by lia.
    simpl. rewrite drop_0, firstn_all. reflexivity.
  - simpl. split_and!; try done.
    + rewrite length_app, length_fmap. lia.
    + rewrite length_app. lia.
    + intros i r Hi Hr. split.
      * rewrite lookup_app_l by lia. done.
      * rewrite lookup_app_r by lia.
        replace (n + i - length rdb)%nat with i by lia.
        by rewrite list_lookup_fmap, Hr.
Qed.

Lemma append_flipped_images_doubles_witness :
  ∃ self',
    append_flipped_images (with_roidb [demo_record_93] [93]) ∅ = (inr self', ∅)
    ∧ _roidb self' = Some [demo_record_93; mirrored demo_record_93]
    ∧ boxes (mirrored demo_record_93)
      = [ {| x1 := 49; y1 := 10; x2 := 89; y2 := 50 |};
          {| x1 := 70; y1 := 60; x2 := 99; y2 := 79 |} ]
    ∧ _image_index self' = [93; 93].
Proof.
  destruct (append_flipped_images_doubles
              (with_roidb [demo_record_93] [93]) [demo_record_93] 1 ∅)
    as (self' & Hrun & _ & Hrdb & Hidx & _).
  - reflexivity.
  - reflexivity.
  - reflexivity.
  - repeat constructor; simpl; lia.
  - exists self'. split_and!; done.
Defined.

(** C3 as stated fails on a record wider than 65536 pixels: the call
    succeeds and doubles the roidb, but the mirrored x1 is the difference
    reduced modulo 2^16, not width - x2 - 1. *)
Lemma append_flipped_images_wide_counterexample :
  ∃ self' r',
    append_flipped_images (with_roidb [wide_record] [1]) ∅ = (inr self', ∅)
    ∧ _roidb self' = Some [wide_record; r']
    ∧ x1 <$> boxes r' = [64454]
    ∧ (λ b, width wide_record - x2 b - 1) <$> boxes wide_record = [195526].
Proof. eexists _, _. vm_compute. split_and!; reflexivity. Qed.

Lemma flip_loop_no_assertion rdb0 :
  Forall flippable rdb0 →
  ∀ range acc, flip_loop (width <$> rdb0) range (rdb0 ++ acc) ≠ inl AssertionError.
Proof.
  intros Hall. induction range as [|i range IH]; intros acc; [done|].
  simpl. unfold index.
  destruct ((rdb0 ++ acc) !! i) as [r|] eqn:Hr; [|done]. simpl.
  rewrite list_lookup_fmap.
  destruct (rdb0 !! i) as [r0|] eqn:Hr0; [|done]. simpl.
  rewrite (lookup_app_l_Some _ _ _ _ Hr0) in Hr. simplify_eq.
  rewrite flip_entry_flippable by (eapply Forall_lookup_1; done). simpl.
  rewrite <- app_assoc. apply IH.
Qed.

(** C10, as amended.  When every box of every record of the roidb satisfies
    0 <= x1 <= x2 <= width - 1 and every width is at most 65536, the
    assertion of [append_flipped_images] holds for every record (each
    mirrored entry is built) and the call never fails with an
    [AssertionError]. *)
Theorem append_flipped_images_assertion_holds self rdb fs :
  _roidb self = Some rdb →
  Forall flippable rdb →
  (∀ r, r ∈ rdb → flip_entry (width r) r = inr (mirrored r))
  ∧ (append_flipped_images self fs).1 ≠ inl AssertionError.
Proof.
  intros Hroidb Hall. split.
  - intros r Hr. apply flip_entry_flippable.
    rewrite Forall_forall in Hall. by apply Hall.
  - unfold append_flipped_images, _get_widths, roidb. rewrite Hroidb.
    unfold mbind, io_bind, mret, io_ret, lift. simpl. rewrite Hroidb.
    pose proof (flip_loop_no_assertion rdb Hall (seq 0 (num_images self)) []) as Hloop.
    rewrite app_nil_r in Hloop.
    destruct (flip_loop _ _ rdb) as [e|rdb']; simpl; [congruence | done].
Qed.

Lemma append_flipped_images_assertion_holds_witness :
  flip_entry (width demo_record_93) demo_record_93 = inr (mirrored demo_record_93)
  ∧ (append_flipped_images (with_roidb [demo_record_93] [93]) ∅).1 ≠ inl AssertionError.
Proof.
  destruct (append_flipped_images_assertion_holds
              (with_roidb [demo_record_93] [93]) [demo_record_93] ∅)
    as [Hentry Hrun].
  - reflexivity.
  - repeat constructor; simpl; lia.
  - split; [|done]. apply Hentry. by apply list_elem_of_singleton.
Defined.

(** C10 as stated fails on a record 70000 pixels wide: its box satisfies
    0 <= x1 <= x2 <= width - 1, yet the mirrored corners wrap around in the
    uint16 array (x1' = 64999, x2' = 69999 mod 2^16 = 4463) and the
    assertion fails. *)
Lemma append_flipped_images_panorama_counterexample :
  Forall (box_fits (width panorama_record)) (boxes panorama_record)
  ∧ flip_box 70000 {| x1 := 0; y1 := 0; x2 := 5000; y2 := 10 |}
    = {| x1 := 64999; y1 := 0; x2 := 4463; y2 := 10 |}
  ∧ append_flipped_images (with_roidb [panorama_record] [1]) ∅
    = (inl AssertionError, ∅).
Proof.
  split_and!.
  - repeat constructor; simpl; lia.
  - reflexivity.
  - vm_compute. reflexivity.
Qed.

(** ** The ground-truth cache *)

Lemma gt_roidb_unfold self fs :
  gt_roidb self fs
  = if bool_decide (is_Some (fs !! cache_file self)) && _use_cache self
    then pickle_load_roidb (cache_file self) fs
    else compute_and_store self fs.
Proof.
  unfold gt_roidb, compute_and_store, osp_exists, mbind, io_bind, lift. simpl.
  destruct (bool_decide _ && _use_cache self); [done|].
  by destruct (mapM _ _).
Qed.

Lemma gt_roidb_hit self fs cached :
  _use_cache self = true →
  fs !! cache_file self = Some (PickledRoidb cached) →
  gt_roidb self fs = (inr cached, fs).
Proof.
  intros Huse Hfile. rewrite gt_roidb_unfold, Huse.
  rewrite bool_decide_eq_true_2 by (rewrite Hfile; eauto).
  unfold pickle_load_roidb. by rewrite Hfile.
Qed.

Lemma gt_roidb_miss self fs :
  _use_cache self = false ∨ fs !! cache_file self = None →
  gt_roidb self fs = compute_and_store self fs.
Proof.
  intros [Huse|Hnone]; rewrite gt_roidb_unfold.
  - by rewrite Huse, andb_false_r.
  - rewrite bool_decide_eq_false_2; [done|].
    rewrite Hnone. by intros [? ?].
Qed.

Lemma gt_roidb_again self fs recs fs' :
  gt_roidb self fs = (inr recs, fs') → gt_roidb self fs' = (inr recs, fs').
Proof.
  rewrite gt_roidb_unfold.
  destruct (bool_decide (is_Some (fs !! cache_file self))) eqn:Hex;
    destruct (_use_cache self) eqn:Huse; simpl.
  - unfold pickle_load_roidb.
    destruct (fs !! cache_file self) as [[cached| | |]|] eqn:Hfile; try done.
    intros [= -> ->]. by apply gt_roidb_hit.
  - unfold compute_and_store.
    destruct (mapM _ _) as [e|recs'] eqn:Hm; [done|]. intros [= -> <-].
    rewrite gt_roidb_miss by (by left). unfold compute_and_store.
    by rewrite Hm, insert_insert_eq.
  - unfold compute_and_store.
    destruct (mapM _ _) as [e|recs'] eqn:Hm; [done|]. intros [= -> <-].
    apply gt_roidb_hit; [done|]. apply lookup_insert_eq.
  - unfold compute_and_store.
    destruct (mapM _ _) as [e|recs'] eqn:Hm; [done|]. intros [= -> <-].
    rewrite gt_roidb_miss by (by left). unfold compute_and_store.
    by rewrite Hm, insert_insert_eq.
Qed.

(** C4. [gt_roidb] returns the cached sequence as it is, without writing,
    whenever caching is enabled and the cache file (at the path built from
    the cache directory and the dataset name) holds a roidb; when caching is
    disabled or there is no cache file it converts every identifier of the
    index in order, writes the whole sequence to the cache path and returns
    it, one record per identifier in index order (an exception of a
    conversion is passed on and nothing is written).  A second call, on the
    disk the first one left, returns the same sequence. *)
Theorem gt_roidb_cache_protocol self fs :
  cache_file self = osp_join (cache_path self) [name self +:+ "_gt_roidb.pkl"]
  ∧ (∀ cached,
       _use_cache self = true →
       fs !! cache_file self = Some (PickledRoidb cached) →
       gt_roidb self fs = (inr cached, fs))
  ∧ (_use_cache self = false ∨ fs !! cache_file self = None →
     match mapM (_load_coco_annotation self) (_image_index self) with
     | inr recs =>
         gt_roidb self fs = (inr recs, <[cache_file self := PickledRoidb recs]> fs)
         ∧ length recs = length (_image_index self)
         ∧ ∀ i id, _image_index self !! i = Some id →
             ∃ r, recs !! i = Some r ∧ _load_coco_annotation self id = inr r
     | inl e => gt_roidb self fs = (inl e, fs)
     end)
  ∧ (∀ recs fs',
       gt_roidb self fs = (inr recs, fs') → gt_roidb self fs' = (inr recs, fs')).
Proof.
  split_and!.
  - reflexivity.
  - intros cached. apply gt_roidb_hit.
  - intros Hmiss. rewrite (gt_roidb_miss _ _ Hmiss). unfold compute_and_store.
    destruct (mapM _ _) as [e|recs] eqn:Hm; [done|].
    split_and!; [done | by eapply mapM_length |].
    intros i id Hid. by eapply mapM_lookup.
  - apply gt_roidb_again.
Qed.

Lemma gt_roidb_cache_protocol_witness :
  gt_roidb demo_ds stale_fs = (inr [wide_record], stale_fs)
  ∧ gt_roidb demo_ds ∅
    = (inr demo_roidb, <[cache_file demo_ds := PickledRoidb demo_roidb]> ∅)
  ∧ gt_roidb demo_ds (<[cache_file demo_ds := PickledRoidb demo_roidb]> ∅)
    = (inr demo_roidb, <[cache_file demo_ds := PickledRoidb demo_roidb]> ∅).
Proof.
  destruct (gt_roidb_cache_protocol demo_ds stale_fs) as (_ & Hhit & _ & _).
  destruct (gt_roidb_cache_protocol demo_ds ∅) as (_ & _ & Hmiss & Hagain).
  assert (gt_roidb demo_ds ∅
          = (inr demo_roidb, <[cache_file demo_ds := PickledRoidb demo_roidb]> ∅))
    as Hfirst.
  { assert (mapM (_load_coco_annotation demo_ds) (_image_index demo_ds)
            = inr demo_roidb) as Hm by (vm_compute; reflexivity).
    rewrite Hm in Hmiss. apply Hmiss. by right. }
  split_and!.
  - apply Hhit; reflexivity.
  - exact Hfirst.
  - apply Hagain. exact Hfirst.
Defined.

(** C9. The instance [__init__] builds has caching enabled exactly when no
    annotation path was given; with an explicit annotation path [gt_roidb]
    ignores whatever the disk holds at the cache path: it converts the
    index and still writes the cache file after computing. *)
Theorem init_use_cache env image_set devkit_path ann_path self :
  __init__ env image_set devkit_path ann_path = inr self →
  (_use_cache self = true ↔ ann_path = None)
  ∧ (∀ p, ann_path = Some p →
       ∀ fs, gt_roidb self fs
             = match mapM (_load_coco_annotation self) (_image_index self) with
               | inr recs => (inr recs, <[cache_file self := PickledRoidb recs]> fs)
               | inl e => (inl e, fs)
               end).
Proof.
  unfold __init__. intros Hinit.
  destruct (COCO_ctor env _) as [coco|]; [|done]. simpl in Hinit.
  injection Hinit as <-.
  split.
  - simpl. destruct ann_path; split; done.
  - intros p -> fs. rewrite gt_roidb_miss by (by left). done.
Qed.

Lemma init_use_cache_witness :
  (∃ self, __init__ demo_env "val" None (Some "my_annotations") = inr self
           ∧ _use_cache self = false
           ∧ gt_roidb self stale_fs
             = (inr demo_roidb, <[cache_file self := PickledRoidb demo_roidb]> stale_fs))
  ∧ _use_cache demo_ds = true.
Proof.
  split.
  - destruct (__init__ demo_env "val" None (Some "my_annotations")) as [e|self] eqn:Hinit;
      [vm_compute in Hinit; discriminate|].
    destruct (init_use_cache _ _ _ _ _ Hinit) as [Huse Hgt].
    exists self. split_and!; [done| |].
    + destruct (_use_cache self); [|done]. destruct Huse as [Huse _].
      by specialize (Huse eq_refl).
    + rewrite (Hgt _ eq_refl).
      vm_compute in Hinit. injection Hinit as <-. vm_compute. reflexivity.
  - by apply (init_use_cache demo_env "val" None None demo_ds init_demo).
Defined.

(** ** Detection results *)

Lemma one_category_loop_spec cat_id boxes :
  ∀ image_index k acc,
    (k + length image_index ≤ length boxes)%nat →
    one_category_loop boxes cat_id k image_index acc
    = inr (acc ++ category_results image_index (drop k boxes) cat_id).
Proof.
  unfold category_results.
  induction image_index as [|index rest IH]; intros k acc Hlen.
  - simpl. by rewrite app_nil_r.
  - simpl in Hlen. destruct (lookup_lt_is_Some_2 boxes k) as [dets Hdets]; [lia|].
    simpl. unfold Py.index. rewrite Hdets. simpl.
    rewrite (drop_S _ _ _ Hdets). simpl.
    destruct dets as [|d dets].
    + rewrite IH by lia. done.
    + rewrite IH by lia. by rewrite <- app_assoc.
Qed.

Lemma collect_results_spec self all_boxes :
  (∀ cls, cls ∈ _classes self → cls ≠ "__background__" →
          is_Some (_class_to_coco_cat_id self !! cls)) →
  Forall (λ boxes, length boxes = num_images self) all_boxes →
  ∀ classes k acc,
    classes ⊆ _classes self →
    (k + length classes ≤ length all_boxes)%nat →
    collect_results self all_boxes k classes acc
    = inr (acc ++ concat (zip_with
             (λ cls boxes,
                if bool_decide (cls = "__background__") then []
                else match _class_to_coco_cat_id self !! cls with
                     | Some cat_id => category_results (_image_index self) boxes cat_id
                     | None => []
                     end)
             classes (drop k all_boxes))).
Proof.
  intros Htable Hshape.
  induction classes as [|cls rest IH]; intros k acc Hsub Hlen.
  - simpl. by rewrite app_nil_r.
  - simpl in Hlen.
    destruct (lookup_lt_is_Some_2 all_boxes k) as [boxes Hboxes]; [lia|].
    assert (rest ⊆ _classes self) as Hrest by set_solver.
    simpl. rewrite (drop_S _ _ _ Hboxes). simpl.
    case_bool_decide as Hbg.
    + rewrite IH by (done || lia). done.
    + destruct (Htable cls) as [cat Hcat]; [set_solver | done |].
      unfold getitem, index. rewrite Hcat, Hboxes. simpl.
      unfold _coco_results_one_category.
      rewrite one_category_loop_spec; last first.
      { rewrite Forall_forall in Hshape.
        rewrite (Hshape boxes) by (by eapply list_elem_of_lookup_2).
        unfold num_images. lia. }
      simpl. rewrite drop_0. rewrite IH by (done || lia).
      by rewrite <- app_assoc.
Qed.

(** Class 0 is skipped before its detections are looked at. *)
Lemma collect_results_skips_0 self all_boxes junk :
  ∀ classes k acc,
    collect_results self (<[0%nat := junk]> all_boxes) (S k) classes acc
    = collect_results self all_boxes (S k) classes acc.
Proof.
  induction classes as [|cls rest IH]; intros k acc; [done|].
  simpl. case_bool_decide; [apply IH|].
  destruct (getitem _ cls) as [e|cat]; simpl; [done|].
  unfold index. rewrite list_lookup_insert_ne by done.
  destruct (all_boxes !! S k) as [boxes|]; simpl; [|done].
  destruct (_coco_results_one_category self boxes cat); simpl; [done|].
  apply IH.
Qed.

Lemma write_coco_results_file_run self all_boxes res_file fs :
  built_class_table self →
  length all_boxes = num_classes self →
  Forall (λ boxes, length boxes = num_images self) all_boxes →
  _write_coco_results_file self all_boxes res_file fs
  = (inr (), <[res_file := JsonResults (flat_results self all_boxes)]> fs).
Proof.
  intros Htable Hclasses Hshape.
  unfold _write_coco_results_file, mbind, io_bind, lift, json_dump.
  rewrite (collect_results_spec self all_boxes); try done.
  - intros cls. by apply built_class_table_covers.
  - unfold num_classes in Hclasses. simpl. lia.
Qed.

(** C5. For detections indexed [class][image], one array per class and
    image, [_write_coco_results_file] writes to the results file the flat
    sequence of entries {image_id, category_id, bbox, score}, class after
    class and image after image, where a row (x1, y1, x2, y2, score) gives
    bbox [x1, y1, x2 - x1 + 1, y2 - y1 + 1]; the detections of class 0
    (background) are never read; the row (10, 10, 20, 30, 0.9) gives bbox
    [10, 10, 11, 21]. *)
Theorem write_coco_results_file_flattens self all_boxes res_file fs :
  built_class_table self →
  length all_boxes = num_classes self →
  Forall (λ boxes, length boxes = num_images self) all_boxes →
  _write_coco_results_file self all_boxes res_file fs
  = (inr (), <[res_file := JsonResults (flat_results self all_boxes)]> fs)
  ∧ (∀ index cat_id d,
       result_entry index cat_id d
       = {| image_id := index;
            res_category_id := cat_id;
            res_bbox := [dx1 d; dy1 d; (dx2 d - dx1 d + 1)%Q; (dy2 d - dy1 d + 1)%Q];
            score := dscore d |})
  ∧ (∀ junk,
       _write_coco_results_file self (<[0%nat := junk]> all_boxes) res_file fs
       = _write_coco_results_file self all_boxes res_file fs)
  ∧ res_bbox (result_entry 93 1 demo_det) = [10%Q; 10%Q; 11%Q; 21%Q].
Proof.
  intros Htable Hclasses Hshape. split_and!.
  - by apply write_coco_results_file_run.
  - done.
  - intros junk. unfold _write_coco_results_file, mbind, io_bind, lift.
    destruct Htable as (Hcls & _). rewrite Hcls. simpl.
    by rewrite collect_results_skips_0.
  - reflexivity.
Qed.

Lemma write_coco_results_file_flattens_witness :
  _write_coco_results_file demo_ds demo_all_boxes "out/res.json" ∅
  = (inr (), <["out/res.json" :=
                JsonResults [ {| image_id := 93; res_category_id := 1;
                                 res_bbox := [10%Q; 10%Q; 11%Q; 21%Q];
                                 score := 9 # 10 |} ]]> ∅).
Proof.
  destruct (write_coco_results_file_flattens demo_ds demo_all_boxes "out/res.json" ∅)
    as (Hrun & _).
  - by apply (init_built_class_table demo_env "val" None None).
  - reflexivity.
  - repeat constructor.
  - rewrite Hrun. vm_compute. reflexivity.
Defined.

(** ** Strings *)

Lemma string_app_nil (s : string) : "" +:+ s = s.
Proof. reflexivity. Qed.

Lemma string_app_cons (c : ascii) (s t : string) :
  String c s +:+ t = String c (s +:+ t).
Proof. reflexivity. Qed.

Lemma string_app_assoc (s t u : string) : (s +:+ t) +:+ u = s +:+ t +:+ u.
Proof.
  induction s as [|c s IH]; [done|].
  rewrite !string_app_cons. by f_equal.
Qed.

Lemma string_app_length (s t : string) :
  String.length (s +:+ t) = (String.length s + String.length t)%nat.
Proof.
  induction s as [|c s IH]; [done|].
  rewrite string_app_cons. simpl. by f_equal.
Qed.

Lemma zeros_length n : String.length (zeros n) = n.
Proof. induction n as [|n IH]; simpl; [done | by f_equal]. Qed.

(** [zfill] pads to the width and never shortens. *)
Lemma zfill_length width s :
  String.length (zfill width s) = (width `max` String.length s)%nat.
Proof.
  unfold zfill. case_decide as Hlen; [lia|].
  destruct s as [|c rest]; simpl in *.
  - rewrite zeros_length. lia.
  - case_decide; simpl; rewrite string_app_length, zeros_length; simpl; lia.
Qed.

(** ** Evaluation *)

Lemma results_basename_int self n :
  _year self = PInt n → results_basename self = inl TypeError.
Proof. unfold results_basename. intros ->. reflexivity. Qed.

Lemma evaluate_detections_int_year self n all_boxes output_dir uuid4 fs :
  _year self = PInt n →
  evaluate_detections self all_boxes output_dir uuid4 fs = (inl TypeError, fs).
Proof.
  intros Hyear. unfold evaluate_detections.
  rewrite (results_basename_int self n Hyear). reflexivity.
Qed.

Lemma init_year env image_set devkit_path ann_path self :
  __init__ env image_set devkit_path ann_path = inr self → _year self = PInt 2018.
Proof.
  unfold __init__. intros Hinit.
  destruct (COCO_ctor env _) as [coco|]; [|done]. simpl in Hinit.
  by injection Hinit as <-.
Qed.

(** C6. The instance [__init__] builds keeps the year as the integer 2018,
    so building the name of the results file adds a string and an integer:
    [evaluate_detections] raises [TypeError] before any file is written,
    whatever the flags are. *)
Theorem evaluate_detections_raises env image_set devkit_path ann_path self on
    all_boxes output_dir uuid4 fs :
  __init__ env image_set devkit_path ann_path = inr self →
  results_basename self = inl TypeError
  ∧ evaluate_detections self all_boxes output_dir uuid4 fs = (inl TypeError, fs)
  ∧ evaluate_detections (competition_mode self on) all_boxes output_dir uuid4 fs
    = (inl TypeError, fs).
Proof.
  intros Hinit. apply init_year in Hinit. split_and!.
  - by eapply results_basename_int.
  - by eapply evaluate_detections_int_year.
  - apply (evaluate_detections_int_year _ 2018). by destruct on.
Qed.

Lemma evaluate_detections_raises_witness :
  evaluate_detections demo_ds demo_all_boxes "out" "6f1c" ∅ = (inl TypeError, ∅).
Proof.
  by destruct (evaluate_detections_raises demo_env "val" None None demo_ds true
                 demo_all_boxes "out" "6f1c" ∅ init_demo) as (_ & Hrun & _).
Defined.

(** With a year that is a string the same code does what C6 describes,
    provided pycocotools evaluates the results and the metrics can be
    printed: the results file is [detections_<image_set><year>_results],
    with the token appended exactly when [use_salt] is set, and [.json]; it
    is written, evaluated (the evaluation object is left in
    [detection_results.pkl]) and removed afterwards exactly when [cleanup]
    is set. *)
Lemma evaluate_detections_str_year self y use_salt cleanup all_boxes output_dir uuid4 fs :
  _year self = PStr y →
  config self = flags use_salt cleanup →
  built_class_table self →
  length all_boxes = num_classes self →
  Forall (λ boxes, length boxes = num_images self) all_boxes →
  let res_file :=
    osp_join output_dir ["detections_" +:+ _image_set self +:+ y +:+ "_results"]
    +:+ (if use_salt then "_" +:+ uuid4 else "") +:+ ".json" in
  let results := flat_results self all_boxes in
  ∀ coco_eval aps,
    COCOeval_run (_COCO self) results = inr coco_eval →
    _print_detection_eval_metrics self coco_eval = inr aps →
    let evaluated :=
      <[osp_join output_dir ["detection_results.pkl"] := PickledEval coco_eval]>
        (<[res_file := JsonResults results]> fs) in
    evaluate_detections self all_boxes output_dir uuid4 fs
    = (inr (), if cleanup then delete res_file evaluated else evaluated).
Proof.
  intros Hyear Hconfig Htable Hlen Hshape res_file results coco_eval aps
    Heval Hprint evaluated.
  assert (getitem (flags use_salt cleanup) "use_salt" = inr use_salt) as Hsalt.
  { unfold getitem, flags. rewrite lookup_insert_ne by done.
    by rewrite lookup_insert_eq. }
  assert (getitem (flags use_salt cleanup) "cleanup" = inr cleanup) as Hclean.
  { unfold getitem, flags. by rewrite lookup_insert_eq. }
  unfold evaluate_detections, results_basename.
  rewrite Hyear, Hconfig, Hsalt, Hclean.
  unfold mbind at 1 2 3 4. unfold io_bind, lift. simpl.
  assert ((if use_salt
           then join2 output_dir
                  ((("detections_" +:+ _image_set self) +:+ y) +:+ "_results")
                +:+ "_" +:+ uuid4
           else join2 output_dir
                  ((("detections_" +:+ _image_set self) +:+ y) +:+ "_results"))
          +:+ ".json" = res_file) as ->.
  { unfold res_file. simpl. destruct use_salt; by rewrite !string_app_assoc. }
  rewrite write_coco_results_file_run by done.
  unfold _do_detection_eval, mbind, io_bind, loadRes, pickle_dump_eval, lift.
  rewrite lookup_insert_eq. fold results. rewrite Heval, Hprint. fold evaluated.
  destruct cleanup; [|done].
  unfold os_remove.
  destruct (evaluated !! res_file) eqn:Hfile; [done|].
  unfold evaluated in Hfile. apply lookup_insert_None in Hfile as [Hfile _].
  by rewrite lookup_insert_eq in Hfile.
Qed.

(** ** Competition mode *)

(** C7. [competition_mode(on)] sets both flags together, to false when [on]
    is true and to true when it is false, and leaves every other key of
    the configuration alone; switching it on and then off again gives the
    configuration {use_salt: true, cleanup: true}, whatever the two flags
    were before. *)
Theorem competition_mode_flags self :
  (∀ on, config (competition_mode self on) !! "use_salt" = Some (negb on)
         ∧ config (competition_mode self on) !! "cleanup" = Some (negb on)
         ∧ ∀ k, k ≠ "use_salt" → k ≠ "cleanup" →
             config (competition_mode self on) !! k = config self !! k)
  ∧ (∀ use_salt cleanup,
       config (competition_mode
                 (competition_mode (set_config self (flags use_salt cleanup)) true)
                 false)
       = flags true true)
  ∧ config (competition_mode (competition_mode self true) false)
    = <["cleanup" := true]> (<["use_salt" := true]> (config self)).
Proof.
  split_and!.
  - intros on. split_and!.
    + destruct on; simpl; rewrite lookup_insert_ne by done;
        by rewrite lookup_insert_eq.
    + destruct on; simpl; by rewrite lookup_insert_eq.
    + intros k Hs Hc. destruct on; simpl; by rewrite !lookup_insert_ne.
  - intros use_salt cleanup. simpl. unfold flags. apply map_eq. intros k.
    destruct (decide (k = "cleanup")) as [->|Hc]; [by rewrite !lookup_insert_eq|].
    rewrite !(lookup_insert_ne _ "cleanup") by done.
    destruct (decide (k = "use_salt")) as [->|Hs]; [by rewrite !lookup_insert_eq|].
    by rewrite !lookup_insert_ne.
  - simpl. apply map_eq. intros k.
    destruct (decide (k = "cleanup")) as [->|Hc]; [by rewrite !lookup_insert_eq|].
    rewrite !(lookup_insert_ne _ "cleanup") by done.
    destruct (decide (k = "use_salt")) as [->|Hs]; [by rewrite !lookup_insert_eq|].
    by rewrite !lookup_insert_ne.
Qed.

(** ** Image paths *)

Lemma endswith_sep_app (s t : string) :
  t ≠ "" → endswith_sep (s +:+ t) = endswith_sep t.
Proof.
  intros Ht. induction s as [|c s IH]; [done|].
  rewrite string_app_cons.
  destruct (s +:+ t) as [|c' r] eqn:Hst; [|exact IH].
  destruct s; [|done]. by rewrite string_app_nil in Hst.
Qed.

(** Under a directory that is not empty and does not end in a separator,
    [os.path.join] puts one separator before each component. *)
Lemma osp_join_images (data_path file_name : string) :
  data_path ≠ "" → endswith_sep data_path = false →
  startswith_sep file_name = false →
  osp_join data_path ["JPEGImages"; file_name]
  = data_path +:+ "/JPEGImages/" +:+ file_name.
Proof.
  intros Hne Hend Hfile. unfold osp_join. simpl. unfold join2 at 2. simpl.
  rewrite bool_decide_eq_false_2 by done. rewrite Hend. simpl.
  unfold join2. rewrite Hfile.
  rewrite endswith_sep_app by done. simpl.
  rewrite bool_decide_eq_false_2.
  - rewrite !string_app_assoc. reflexivity.
  - destruct data_path; done.
Qed.

Lemma getitem_int_position {A} (l : list A) (i : Z) (a : A) :
  0 ≤ i → l !! Z.to_nat i = Some a → getitem_int l i = inr a.
Proof.
  intros Hi Ha. unfold getitem_int.
  pose proof (lookup_lt_Some _ _ _ Ha) as Hlt.
  rewrite decide_True by lia. unfold index. by rewrite Ha.
Qed.

(** C8. For a position [i] of the image index holding the identifier
    [index], [image_path_at(i)] leaves the disk untouched and either
    returns the path of [img<index zero-filled to 5 characters>.jpg] in the
    directory [JPEGImages] under the data path, when a file exists there,
    or fails (with the [AssertionError] of its [assert]) exactly when none
    does.  The file name has at least 5 characters between [img] and
    [.jpg], and under a data path that is not empty and does not end in a
    separator the path is [<data_path>/JPEGImages/img<...>.jpg]. *)
Theorem image_path_at_resolves self i index fs :
  0 ≤ i →
  _image_index self !! Z.to_nat i = Some index →
  let file_name := "img" +:+ zfill 5 (str index) +:+ ".jpg" in
  let path := osp_join (_data_path self) ["JPEGImages"; file_name] in
  (image_path_at self i fs).2 = fs
  ∧ (is_Some (fs !! path) → (image_path_at self i fs).1 = inr path)
  ∧ ((image_path_at self i fs).1 = inl AssertionError ↔ fs !! path = None)
  ∧ (∀ e, (image_path_at self i fs).1 = inl e → e = AssertionError)
  ∧ (5 ≤ String.length (zfill 5 (str index)))%nat
  ∧ (_data_path self ≠ "" → endswith_sep (_data_path self) = false →
     path = _data_path self +:+ "/JPEGImages/" +:+ file_name).
Proof.
  intros Hi Hindex file_name path.
  assert (image_path_at self i fs
          = (if bool_decide (is_Some (fs !! path)) then inr path
             else inl AssertionError, fs)) as Hrun.
  { unfold image_path_at, mbind, io_bind, lift.
    rewrite (getitem_int_position _ _ _ Hi Hindex).
    unfold image_path_from_index, mbind, io_bind, osp_exists, image_file_name.
    fold file_name. fold path. by destruct (bool_decide _). }
  rewrite Hrun. simpl. split_and!.
  - done.
  - intros Hsome. by rewrite bool_decide_eq_true_2.
  - case_bool_decide as Hsome; split; try done.
    + intros Hnone. rewrite Hnone in Hsome. by destruct Hsome.
    + intros _. by apply eq_None_not_Some.
  - intros e. case_bool_decide; congruence.
  - rewrite zfill_length. lia.
  - intros Hne Hend. by apply osp_join_images.
Qed.

Lemma image_path_at_resolves_witness :
  image_path_at demo_ds 0 demo_disk
  = (inr "data/WiderPedestrian/JPEGImages/img00093.jpg", demo_disk)
  ∧ image_path_at demo_ds 1 demo_disk = (inl AssertionError, demo_disk).
Proof.
  destruct (image_path_at_resolves demo_ds 0 93 demo_disk)
    as (Hfs & Hfound & _); [lia | reflexivity |].
  destruct (image_path_at_resolves demo_ds 1 7 demo_disk)
    as (Hfs' & _ & Hmissing & _); [lia | reflexivity |].
  split.
  - destruct (image_path_at demo_ds 0 demo_disk) as [res fs'].
    simpl in *. rewrite Hfs, Hfound; [reflexivity|].
    vm_compute. eauto.
  - destruct (image_path_at demo_ds 1 demo_disk) as [res fs'].
    simpl in *. rewrite Hfs'. f_equal. apply Hmissing.
    vm_compute. reflexivity.
Defined.

(** ** When the conversion returns *)

Lemma mapM_returns {A B} (f : A → Result B) (l : list A) :
  (∀ x, x ∈ l → ∃ y, f x = inr y) → ∃ ys, mapM f l = inr ys.
Proof.
  induction l as [|x l IH]; intros Hall; [by exists []|].
  destruct (Hall x) as [y Hy]; [by apply elem_of_cons; left|].
  destruct IH as [ys Hys].
  { intros x' Hx'. apply Hall. by apply elem_of_cons; right. }
  exists (y :: ys). simpl. by rewrite Hy, Hys.
Qed.

Lemma valid_objs_subset w h objs obj cb :
  (obj, cb) ∈ valid_objs w h objs → obj ∈ objs.
Proof.
  rewrite valid_objs_filter. intros Hin.
  apply list_elem_of_fmap in Hin as (obj' & [= -> _] & Hin).
  by apply list_elem_of_filter in Hin as [_ Hin].
Qed.

(** On an instance with the class tables of [__init__] and categories of
    distinct names, the table of lines 164-166 is built, and it sends every
    category identifier of the index to a class index below [num_classes]. *)
Lemma coco_cat_id_to_class_ind_built self :
  built_class_table self →
  NoDup (cat_name <$> loadCats (_COCO self)) →
  ∃ table,
    coco_cat_id_to_class_ind self = inr table
    ∧ ∀ id, id ∈ getCatIds (_COCO self) →
        ∃ cls, table !! id = Some cls ∧ (cls < num_classes self)%nat.
Proof.
  intros (Hclasses & Hcat & Hind) Hnd.
  set (names := cat_name <$> loadCats (_COCO self)) in *.
  set (step := λ cls : string,
         k ← getitem (_class_to_coco_cat_id self) cls;
         v ← getitem (_class_to_ind self) cls;
         inr (k, v)).
  assert (∀ c, c ∈ loadCats (_COCO self) →
            _class_to_coco_cat_id self !! cat_name c = Some (cat_id c)) as Hcatlook.
  { intros c Hc. rewrite Hcat. unfold names, getCatIds in *.
    apply dict_of_list_NoDup.
    - by rewrite pyzip_fmap_fst.
    - rewrite pyzip_fmap. apply list_elem_of_fmap. by exists c. }
  assert (∀ name, name ∈ names → is_Some (_class_to_ind self !! name)) as Hindlook.
  { intros name Hname. rewrite Hind. apply dict_of_list_is_Some.
    rewrite pyzip_seq_fst, Hclasses. by apply elem_of_cons; right. }
  destruct (mapM_returns step names) as [pairs Hpairs].
  { intros name Hname. unfold step.
    apply list_elem_of_fmap in Hname as (c & -> & Hc).
    unfold getitem. rewrite (Hcatlook c Hc).
    destruct (Hindlook (cat_name c)) as [v Hv].
    { apply list_elem_of_fmap. by exists c. }
    rewrite Hv. simpl. eauto. }
  exists (dict_of_list pairs). split.
  { unfold coco_cat_id_to_class_ind. rewrite Hclasses. simpl.
    fold names. fold step. by rewrite Hpairs. }
  apply mapM_inr in Hpairs.
  intros id Hid. unfold getCatIds in Hid.
  apply list_elem_of_fmap in Hid as (c & -> & Hc).
  assert (cat_id c ∈ pairs.*1) as Hkey.
  { assert (cat_name c ∈ names) as Hname by (apply list_elem_of_fmap; by exists c).
    apply list_elem_of_lookup in Hname as [i Hi].
    destruct (Forall2_lookup_l _ _ _ _ _ Hpairs Hi) as (p & Hp & Hstep).
    unfold step, getitem in Hstep. rewrite (Hcatlook c Hc) in Hstep.
    destruct (_class_to_ind self !! cat_name c) as [v|]; [|done].
    simpl in Hstep. injection Hstep as <-.
    apply list_elem_of_fmap. exists (cat_id c, v). split; [done|].
    by eapply list_elem_of_lookup_2. }
  destruct (dict_of_list_is_Some _ _ Hkey) as [cls Hcls].
  exists cls. split; [done|].
  apply dict_of_list_elem in Hcls.
  apply list_elem_of_lookup in Hcls as [i Hi].
  destruct (Forall2_lookup_r _ _ _ _ _ Hpairs Hi) as (name & Hname & Hstep).
  unfold step in Hstep.
  apply bind_inr in Hstep as (k & _ & Hstep).
  apply bind_inr in Hstep as (v & Hv & [= _ ->]).
  apply getitem_inr in Hv. rewrite Hind in Hv.
  apply dict_of_list_elem, pyzip_seq_bound in Hv. unfold num_classes. lia.
Qed.

(** [_load_coco_annotation] returns a record for every image of the index
    that is at most 65536 pixels wide and high and whose annotations carry
    category identifiers of the index. *)
Lemma load_coco_annotation_returns self index im :
  built_class_table self →
  NoDup (cat_name <$> loadCats (_COCO self)) →
  loadImgs (_COCO self) index = Some im →
  im_width im ≤ 65536 → im_height im ≤ 65536 →
  (∀ obj, obj ∈ loadAnns (_COCO self) index →
          category_id obj ∈ getCatIds (_COCO self)) →
  ∃ r, _load_coco_annotation self index = inr r.
Proof.
  intros Hbuilt Hnd Him Hw Hh Hcats.
  destruct (coco_cat_id_to_class_ind_built self Hbuilt Hnd) as (table & Htable & Hlook).
  set (kept := valid_objs (im_width im) (im_height im) (loadAnns (_COCO self) index)).
  destruct (mapM_returns (row_of table (num_classes self)) kept) as [rows Hrows].
  { intros [obj cb] Hin. unfold row_of. simpl.
    destruct (Hlook (category_id obj)) as (cls & Hcls & Hlt).
    { eapply Hcats, valid_objs_subset, Hin. }
    unfold getitem. rewrite Hcls. simpl.
    destruct (truthy (iscrowd obj)); [eauto|].
    rewrite decide_True by done. eauto. }
  unfold _load_coco_annotation. rewrite Him. simpl. rewrite Htable. simpl.
  fold kept. rewrite fill_arrays_rows, Hrows. simpl.
  assert (validate_boxes ((λ r, r.1.1.1) <$> rows) (im_width im) (im_height im)
          = inr ()) as ->; [|simpl; eauto].
  apply validate_boxes_inr. rewrite (rows_boxes _ _ _ _ Hrows).
  by apply valid_objs_stored.
Qed.

(** ** Examples *)

(** The two wide records of the flipping examples are the records the
    conversion itself builds in the world [wide_env]. *)
Example wide_record_built :
  (__init__ wide_env "val" None None ≫= λ self, _load_coco_annotation self 1)
  = inr wide_record.
Proof. vm_compute. reflexivity. Qed.

Example panorama_record_built :
  (__init__ wide_env "val" None None ≫= λ self, _load_coco_annotation self 2)
  = inr panorama_record.
Proof. vm_compute. reflexivity. Qed.

Example str_zfill_93 : image_file_name 93 = "img00093.jpg".
Proof. reflexivity. Qed.

Example str_zfill_123456 : image_file_name 123456 = "img123456.jpg".
Proof. reflexivity. Qed.

Example osp_join_plain :
  osp_join "data/WiderPedestrian" ["JPEGImages"; "img00093.jpg"]
  = "data/WiderPedestrian/JPEGImages/img00093.jpg".
Proof. reflexivity. Qed.

Example osp_join_trailing_separator :
  osp_join "data/" ["JPEGImages"; "img00093.jpg"] = "data/JPEGImages/img00093.jpg".
Proof. reflexivity. Qed.

Example dict_of_list_last_wins :
  dict_of_list [("a", 1); ("b", 2); ("a", 3)] !! "a" = Some 3.
Proof. reflexivity. Qed.

(** The flipped box of the specification's example: width 100, box
    (10, 10, 50, 50). *)
Example flip_box_example :
  flip_box 100 {| x1 := 10; y1 := 10; x2 := 50; y2 := 50 |}
  = {| x1 := 49; y1 := 10; x2 := 89; y2 := 50 |}.
Proof. reflexivity. Qed.

(** * Further properties of the code *)

(** ** Which annotations the sanitising loop drops *)

Lemma wrapped_sum_dropped n o s :
  operands_fit o s → ¬ no_wrap o s →
  (num_val (np_min n (np_add (np_max0 o) (np_max0 (py_sub1 s)))) < num_val (np_max0 o))%Q.
Proof.
  destruct o as [b|p], s as [w|q]; simpl; try tauto.
  intros [Hb Hw] Hwrap.
  rewrite wrap64_high by lia.
  rewrite <- Zlt_Qlt. lia.
Qed.

Lemma clip_keeps_origin n o s :
  no_wrap o s →
  (num_val (np_max0 o) <= num_val (np_min n (np_add (np_max0 o) (np_max0 (py_sub1 s)))))%Q
  ↔ (Qmax 0 (num_val o) <= inject_Z n)%Q.
Proof.
  intros Hw. rewrite num_val_np_min, no_wrap_add by done.
  rewrite num_val_np_max0. split.
  - intros Hle. eapply Qle_trans; [exact Hle|]. apply Q.le_min_l.
  - intros Hle. apply Q.min_glb; [done|].
    rewrite <- (Qplus_0_r (Qmax 0 (num_val o))) at 1.
    apply Qplus_le_r. apply Q.le_max_l.
Qed.

(** X1.  Lines 147-151.  An annotation whose integer coordinates are
    [int64] values is kept exactly when its area is positive, the origin of
    its box, moved to the image border when negative, is a pixel of the
    image, and neither sum x1 + max(0, bw-1), y1 + max(0, bh-1) leaves the
    [int64] range.  Short of that overflow the width and height of the box
    never cause a drop. *)
Theorem valid_objs_keeps w h objs obj :
  int64_operands obj →
  obj ∈ (valid_objs w h objs).*1
  ↔ obj ∈ objs
    ∧ (0 < num_val (area obj))%Q
    ∧ (Qmax 0 (num_val (bbox obj).1.1.1) <= inject_Z (w - 1))%Q
    ∧ (Qmax 0 (num_val (bbox obj).1.1.2) <= inject_Z (h - 1))%Q
    ∧ no_overflow obj.
Proof.
  intros Hfit.
  rewrite valid_objs_filter, <- list_fmap_compose.
  rewrite list_elem_of_fmap.
  assert (keep_obj w h obj = true
          ↔ (0 < num_val (area obj))%Q
            ∧ (Qmax 0 (num_val (bbox obj).1.1.1) <= inject_Z (w - 1))%Q
            ∧ (Qmax 0 (num_val (bbox obj).1.1.2) <= inject_Z (h - 1))%Q
            ∧ no_overflow obj) as Hkeep.
  { rewrite keep_obj_true. unfold clean_bbox, no_overflow, int64_operands in *.
    destruct (bbox obj) as [[[bx by_] bw] bh]. cbn [fst snd cx1 cx2 cy1 cy2].
    destruct Hfit as [Hfx Hfy]. split.
    - intros (Harea & Hx & Hy).
      assert (no_wrap bx bw) as Hwx.
      { destruct (decide (no_wrap bx bw)) as [?|Hn]; [done|]. exfalso.
        apply (Qlt_not_le _ _ (wrapped_sum_dropped (w - 1) bx bw Hfx Hn)), Hx. }
      assert (no_wrap by_ bh) as Hwy.
      { destruct (decide (no_wrap by_ bh)) as [?|Hn]; [done|]. exfalso.
        apply (Qlt_not_le _ _ (wrapped_sum_dropped (h - 1) by_ bh Hfy Hn)), Hy. }
      apply clip_keeps_origin in Hx; [|done].
      apply clip_keeps_origin in Hy; [|done]. done.
    - intros (Harea & Hx & Hy & Hwx & Hwy).
      split_and!; [done | by apply clip_keeps_origin | by apply clip_keeps_origin]. }
  split.
  - intros (obj' & -> & Hin). apply list_elem_of_filter in Hin as [Hk Hin].
    simpl. split; [done|]. by apply Hkeep.
  - intros (Hin & Hrest). exists obj. split; [done|].
    apply list_elem_of_filter. split; [|done]. by apply Hkeep.
Qed.

Lemma valid_objs_keeps_witness :
  int64_operands overflow_obj
  ∧ (overflow_obj ∉ (valid_objs 64 48 [overflow_obj]).*1)
  ∧ ({| bbox := (Int (-5), Int 60, Int 30, Int 40); area := Int 1200;
        iscrowd := 1; category_id := 1 |}
     ∈ (valid_objs 100 80 (loadAnns demo_coco 93)).*1).
Proof.
  assert (int64_operands overflow_obj) as Hfit.
  { unfold int64_operands, operands_fit. simpl. lia. }
  split_and!; [done | |].
  - intros Hin.
    apply (valid_objs_keeps 64 48 [overflow_obj] overflow_obj Hfit) in Hin
      as (_ & _ & _ & _ & [Hwx _]).
    unfold no_wrap in Hwx. simpl in Hwx. lia.
  - apply (valid_objs_keeps 100 80).
    + unfold int64_operands, operands_fit. simpl. lia.
    + split_and!.
      * simpl. apply elem_of_cons; right. apply elem_of_cons; by left.
      * reflexivity.
      * vm_compute. discriminate.
      * vm_compute. discriminate.
      * unfold no_overflow, no_wrap. simpl. lia.
Defined.

(** X2.  Lines 147-153.  A box with integer coordinates that lies inside
    the image, with width and height of at least one pixel, is not changed
    by the clipping: it is kept (when its area is positive) with corners
    (x, y, x + w - 1, y + h - 1).  The image is at most 2^63 pixels wide and
    high, so that its last column and row are [int64] values. *)
Theorem clean_bbox_inside w h obj bx by_ bw bh :
  bbox obj = (Int bx, Int by_, Int bw, Int bh) →
  0 ≤ bx → 0 ≤ by_ → 1 ≤ bw → 1 ≤ bh → bx + bw ≤ w → by_ + bh ≤ h →
  w ≤ 2 ^ 63 → h ≤ 2 ^ 63 →
  (0 < num_val (area obj))%Q →
  valid_objs w h [obj]
  = [(obj, {| cx1 := Int bx; cy1 := Int by_;
              cx2 := Int (bx + bw - 1); cy2 := Int (by_ + bh - 1) |})].
Proof.
  intros Hbox Hx Hy Hw Hh Hxw Hyh Hwmax Hhmax Harea.
  assert (clean_bbox w h obj
          = {| cx1 := Int bx; cy1 := Int by_;
               cx2 := Int (bx + bw - 1); cy2 := Int (by_ + bh - 1) |}) as Hclean.
  { unfold clean_bbox. rewrite Hbox. simpl.
    rewrite !Z.max_r by lia. rewrite !wrap64_small by lia.
    f_equal; f_equal; lia. }
  simpl. assert (keep_obj w h obj = true) as ->.
  { apply keep_obj_true. rewrite Hclean. simpl.
    split_and!; [done | |]; rewrite <- Zle_Qle; lia. }
  by rewrite Hclean.
Qed.

Lemma clean_bbox_inside_witness :
  valid_objs 100 80
    [ {| bbox := (Int 10, Int 10, Int 41, Int 41); area := Int 1681;
         iscrowd := 0; category_id := 1 |} ]
  = [ ({| bbox := (Int 10, Int 10, Int 41, Int 41); area := Int 1681;
          iscrowd := 0; category_id := 1 |},
       {| cx1 := Int 10; cy1 := Int 10;
          cx2 := Int (10 + 41 - 1); cy2 := Int (10 + 41 - 1) |}) ].
Proof.
  apply (clean_bbox_inside 100 80 _ 10 10 41 41); (reflexivity || lia).
Defined.

(** Beyond that size the sum can leave the [int64] range: in an image
    2^63 + 10 pixels wide a box of five pixels at x = 2^63 - 1 lies inside
    the image and is dropped. *)
Example clean_bbox_inside_beyond_int64 :
  valid_objs (2 ^ 63 + 10) 80
    [ {| bbox := (Int (2 ^ 63 - 1), Int 10, Int 5, Int 5); area := Int 25;
         iscrowd := 0; category_id := 1 |} ]
  = [].
Proof. vm_compute. reflexivity. Qed.

(** ** The shape of a record *)

Lemma Qred_inject_Z z : Qred (inject_Z z) = inject_Z z.
Proof.
  unfold Qred, inject_Z.
  pose proof (Z.ggcd_gcd z 1) as Hg. pose proof (Z.ggcd_correct_divisors z 1) as Hd.
  destruct (Z.ggcd z 1) as [g [aa bb]]. simpl in *.
  rewrite Z.gcd_1_r in Hg. subst g. destruct Hd as [Hz Hb].
  rewrite Z.mul_1_l in Hz, Hb. by subst.
Qed.

Lemma round_half_even_Z q k : (q == inject_Z k)%Q → round_half_even q = k.
Proof.
  intros Hq. unfold round_half_even.
  rewrite (Qfloor_comp q (inject_Z k) Hq), Qfloor_Z.
  assert (q - inject_Z k == 0)%Q as H0 by (rewrite Hq; ring).
  by rewrite (Qcompare_comp _ _ H0 (1 # 2)%Q (1 # 2)%Q (Qeq_refl _)).
Qed.

Lemma Qpow2_pos e : (0 < Qpow2 e)%Q.
Proof.
  unfold Qpow2. destruct (0 <=? e) eqn:He.
  - apply Z.leb_le in He. change 0%Q with (inject_Z 0). rewrite <- Zlt_Qlt.
    by apply Z.pow_pos_nonneg.
  - reflexivity.
Qed.

(** A positive rational that is a multiple of the spacing of the numbers of
    the format around it, and lies below the largest power of two, is a
    number of the format. *)
Lemma float_nearest_exact p emin emax a k :
  (a == inject_Z k * Qpow2 (Z.max emin (Qlog2_floor a) - (p - 1)))%Q →
  (a < Qpow2 (emax + 1))%Q →
  float_nearest p emin emax a = Some (Qred a).
Proof.
  intros Hk Hlt. unfold float_nearest.
  set (ulp := Qpow2 (Z.max emin (Qlog2_floor a) - (p - 1))) in *.
  assert (¬ (ulp == 0)%Q) as Hulp.
  { intros H0. pose proof (Qpow2_pos (Z.max emin (Qlog2_floor a) - (p - 1))) as Hp.
    fold ulp in Hp. rewrite H0 in Hp. by apply Qlt_irrefl in Hp. }
  rewrite (round_half_even_Z _ k).
  - assert (Qred (inject_Z k * ulp) = Qred a) as ->.
    { apply Qred_complete. by rewrite Hk. }
    destruct (Qle_bool (Qpow2 (emax + 1)) (Qred a)) eqn:Hb; [|done].
    apply Qle_bool_iff in Hb. rewrite Qred_correct in Hb.
    exfalso. by apply (Qlt_not_le _ _ Hlt).
  - rewrite Hk. by apply Qdiv_mult_l.
Qed.

Lemma Qlog2_floor_Z z : 0 < z → Qlog2_floor (inject_Z z) = Z.log2 z.
Proof.
  intros Hz. unfold Qlog2_floor. simpl. rewrite Z.sub_0_r.
  assert (Qle_bool (Qpow2 (Z.log2 z)) (inject_Z z) = true) as ->; [|done].
  apply Qle_bool_iff. unfold Qpow2.
  pose proof (Z.log2_nonneg z) as Hl.
  rewrite (proj2 (Z.leb_le 0 (Z.log2 z))) by done.
  rewrite <- Zle_Qle. by apply Z.log2_spec.
Qed.

(** A positive integer of at most [p] bits, or 2^p, is a number of a
    format with [p] significant bits. *)
Lemma float_nearest_Z p emin emax z :
  0 < p < emax → emin ≤ 0 → 0 < z ≤ 2 ^ p →
  float_nearest p emin emax (inject_Z z) = Some (inject_Z z).
Proof.
  intros Hp Hemin Hz. rewrite <- (Qred_inject_Z z) at 2.
  pose proof (Z.log2_nonneg z) as Hl0.
  pose proof (Z.log2_spec z ltac:(lia)) as [Hlo Hhi].
  assert (Z.log2 z ≤ p) as Hlp.
  { rewrite <- (Z.log2_pow2 p) by lia. apply Z.log2_le_mono. lia. }
  assert (inject_Z z < Qpow2 (emax + 1))%Q as Hbelow.
  { unfold Qpow2. rewrite (proj2 (Z.leb_le 0 (emax + 1))) by lia.
    rewrite <- Zlt_Qlt.
    assert (2 ^ p < 2 ^ (emax + 1)) by (apply Z.pow_lt_mono_r; lia). lia. }
  assert (∃ k, (inject_Z z == inject_Z k * Qpow2 (Z.log2 z - (p - 1)))%Q) as [k Hk].
  { unfold Qpow2. destruct (0 <=? Z.log2 z - (p - 1)) eqn:He.
    - apply Z.leb_le in He.
      destruct (decide (Z.log2 z = p)) as [Hlog|Hlog].
      + exists (2 ^ (p - 1)). rewrite Hlog.
        replace (p - (p - 1)) with 1 by lia.
        assert (z = 2 ^ p) as -> by (rewrite Hlog in Hlo; lia).
        rewrite <- inject_Z_mult. replace (2 ^ (p - 1) * 2 ^ 1) with (2 ^ p); [done|].
        rewrite <- Z.pow_add_r by lia. f_equal. lia.
      + exists z. replace (Z.log2 z - (p - 1)) with 0 by lia.
        rewrite <- inject_Z_mult. by rewrite Z.mul_1_r.
    - apply Z.leb_gt in He. exists (z * 2 ^ (- (Z.log2 z - (p - 1)))).
      unfold Qeq. simpl.
      rewrite Pos.mul_1_l, Z2Pos.id by (apply Z.pow_pos_nonneg; lia). lia. }
  apply (float_nearest_exact _ _ _ _ k); [|done].
  rewrite Qlog2_floor_Z by lia. by rewrite Z.max_r by lia.
Qed.

Lemma float_round_Z p emin emax z :
  0 < p < emax → emin ≤ 0 → - 2 ^ p ≤ z ≤ 2 ^ p →
  float_round p emin emax (inject_Z z) = f32 (inject_Z z).
Proof.
  intros Hp Hemin Hz. unfold float_round. change (Qnum (inject_Z z)) with z.
  destruct z as [|n|n]; [done | |].
  - rewrite float_nearest_Z by (done || lia). done.
  - change (- inject_Z (Z.neg n))%Q with (inject_Z (Z.pos n)).
    rewrite float_nearest_Z by (done || lia).
    change (- inject_Z (Z.pos n))%Q with (inject_Z (Z.neg n)).
    by rewrite Qred_inject_Z.
Qed.

(** An integer of magnitude at most 2^24 is held exactly by a float32
    cell. *)
Lemma to_float32_Z z :
  - 2 ^ 24 ≤ z ≤ 2 ^ 24 → to_float32 (Int z) = f32 (inject_Z z).
Proof.
  intros Hz. unfold to_float32, round64, round32.
  rewrite float_round_Z by lia. by rewrite float_round_Z by lia.
Qed.

(** X3.  Lines 155-193.  In a returned record the four arrays are parallel: they
    have one row per kept annotation, in the order of the annotations;
    every overlap row has one entry per class; the areas are those of the
    kept annotations rounded to float32, which leaves an integer area of
    magnitude at most 2^24 as it is; the record is not flipped and carries
    the size of the image. *)
Theorem load_coco_annotation_shape self index r :
  _load_coco_annotation self index = inr r →
  let kept := valid_objs (width r) (height r) (loadAnns (_COCO self) index) in
  loadImgs (_COCO self) index
    = Some {| im_width := width r; im_height := height r |}
  ∧ length (boxes r) = length kept
  ∧ length (gt_classes r) = length kept
  ∧ length (gt_overlaps r) = length kept
  ∧ length (seg_areas r) = length kept
  ∧ Forall (λ row, length row = num_classes self) (gt_overlaps r)
  ∧ seg_areas r = (λ obj, to_float32 (area obj)) <$> kept.*1
  ∧ (∀ ix obj z, kept.*1 !! ix = Some obj → area obj = Int z →
       - 2 ^ 24 ≤ z ≤ 2 ^ 24 → seg_areas r !! ix = Some (f32 (inject_Z z)))
  ∧ flipped r = false.
Proof.
  intros Hload.
  apply load_coco_annotation_inr in Hload
    as (im & table & rows & Him & Htable & Hrows & Hval & ->).
  simpl. pose proof (mapM_length _ _ _ Hrows) as Hlen.
  assert ((λ r, r.2) <$> rows
          = (λ obj, to_float32 (area obj))
              <$> (valid_objs (im_width im) (im_height im)
                     (loadAnns (_COCO self) index)).*1) as Hareas.
  { apply mapM_inr in Hrows. clear Hval Hlen.
    induction Hrows as [|[obj cb] row l rows Hrow _ IH]; [done|].
    simpl. f_equal; [|done].
    by apply row_of_inr in Hrow as (cls & _ & _ & Harea & _). }
  split_and!; rewrite ?length_fmap; try done.
  - rewrite Him. by destruct im.
  - apply Forall_fmap. apply mapM_inr in Hrows.
    clear Hval Hlen Hareas.
    induction Hrows as [|[obj cb] row l rows Hrow _ IH]; [done|].
    constructor; [|done]. simpl.
    apply row_of_inr in Hrow as (cls & _ & _ & _ & Hov).
    destruct (truthy (iscrowd obj)); [by rewrite Hov, length_replicate|].
    destruct Hov as [_ ->]. by rewrite length_insert, length_replicate.
  - intros ix obj z Hix Harea Hz.
    rewrite Hareas, list_lookup_fmap, Hix. simpl.
    by rewrite Harea, to_float32_Z.
Qed.

Lemma load_coco_annotation_shape_witness :
  length (boxes street_record) = 3%nat
  ∧ seg_areas street_record
    = [to_float32 (Float (405 # 2)); to_float32 (Int 1200); to_float32 (Int 16777217)]
  ∧ seg_areas street_record = [f32 (405 # 2); f32 1200; f32 16777216]
  ∧ seg_areas street_record !! 1%nat = Some (f32 (inject_Z 1200))
  ∧ flipped street_record = false.
Proof.
  destruct (load_coco_annotation_shape street_ds 1 street_record)
    as (_ & Hb & _ & _ & _ & _ & Hs & Hexact & Hf).
  - vm_compute. reflexivity.
  - split_and!; [exact Hb | exact Hs | reflexivity | | exact Hf].
    apply (Hexact 1%nat
             {| bbox := (Int (-5), Int 60, Int 30, Int 40); area := Int 1200;
                iscrowd := 1; category_id := 1 |}); [reflexivity | reflexivity | lia].
Defined.

(** ** When the conversion returns and when it raises *)

Lemma coco_cat_id_to_class_ind_exists self :
  built_class_table self → ∃ table, coco_cat_id_to_class_ind self = inr table.
Proof.
  intros Hbuilt. pose proof Hbuilt as (Hclasses & Hcat & Hind).
  unfold coco_cat_id_to_class_ind.
  destruct (mapM_returns
              (λ cls, k ← getitem (_class_to_coco_cat_id self) cls;
                      v ← getitem (_class_to_ind self) cls;
                      inr (k, v))
              (tail (_classes self))) as [pairs Hpairs].
  { intros name Hname.
    assert (name ∈ _classes self) as Hin.
    { rewrite Hclasses in *. simpl in Hname. by apply elem_of_cons; right. }
    assert (is_Some (_class_to_coco_cat_id self !! name)) as [k Hk].
    { rewrite Hclasses in Hname. simpl in Hname. rewrite Hcat.
      apply dict_of_list_is_Some. unfold getCatIds. by rewrite pyzip_fmap_fst. }
    assert (is_Some (_class_to_ind self !! name)) as [v Hv].
    { rewrite Hind. apply dict_of_list_is_Some. by rewrite pyzip_seq_fst. }
    unfold getitem. rewrite Hk, Hv. simpl. eauto. }
  rewrite Hpairs. simpl. eauto.
Qed.

Lemma coco_cat_id_to_class_ind_keys self table id cls :
  built_class_table self →
  coco_cat_id_to_class_ind self = inr table →
  table !! id = Some cls →
  id ∈ getCatIds (_COCO self) ∧ (cls < num_classes self)%nat.
Proof.
  intros (Hclasses & Hcat & Hind) Htable Hlook.
  unfold coco_cat_id_to_class_ind in Htable.
  apply bind_inr in Htable as (pairs & Hpairs & [= <-]).
  apply dict_of_list_elem in Hlook.
  apply list_elem_of_lookup in Hlook as [i Hi].
  apply mapM_inr in Hpairs.
  destruct (Forall2_lookup_r _ _ _ _ _ Hpairs Hi) as (name & Hname & Hstep).
  apply bind_inr in Hstep as (k & Hk & Hstep).
  apply bind_inr in Hstep as (v & Hv & [= -> ->]).
  apply getitem_inr in Hk. apply getitem_inr in Hv. split.
  - rewrite Hcat in Hk. apply dict_of_list_elem in Hk.
    unfold getCatIds in *. rewrite pyzip_fmap in Hk.
    apply list_elem_of_fmap in Hk as (c & [= _ ->] & Hc).
    apply list_elem_of_fmap. by exists c.
  - rewrite Hind in Hv. apply dict_of_list_elem, pyzip_seq_bound in Hv.
    unfold num_classes. lia.
Qed.

Lemma mapM_raises {A B} (f : A → Result B) (l : list A) (e : PyError) :
  (∀ x, x ∈ l → (∃ y, f x = inr y) ∨ f x = inl e) →
  (∃ x, x ∈ l ∧ f x = inl e) →
  mapM f l = inl e.
Proof.
  induction l as [|x l IH]; intros Hall (x' & Hin & Hx').
  - by apply elem_of_nil in Hin.
  - simpl. destruct (Hall x) as [[y Hy]|Hy]; [by apply elem_of_cons; left| |].
    + rewrite Hy. simpl. rewrite IH; [done| |].
      * intros z Hz. apply Hall. by apply elem_of_cons; right.
      * apply elem_of_cons in Hin as [->|Hin]; [congruence|]. eauto.
    + by rewrite Hy.
Qed.

Lemma row_of_known table ncls obj cb :
  (∀ id cls, table !! id = Some cls → (cls < ncls)%nat) →
  (∃ row, row_of table ncls (obj, cb) = inr row ∧ is_Some (table !! category_id obj))
  ∨ (row_of table ncls (obj, cb) = inl KeyError ∧ table !! category_id obj = None).
Proof.
  intros Hbound. unfold row_of, getitem. simpl.
  destruct (table !! category_id obj) as [cls|] eqn:Hcls; [left|by right].
  simpl. destruct (truthy (iscrowd obj)); [eauto|].
  rewrite decide_True by (by eapply Hbound). eauto.
Qed.





(** ** The class tables *)

(** X6.  Lines 44-48.  When the category names of the annotation index are
    distinct and none is [__background__], the instance [__init__] builds
    has one class more than the index has categories; class 0 is the
    background, and the i-th category (from 0) is class i + 1: its name
    stands at position i + 1 of the class tuple, is sent to i + 1 by
    [_class_to_ind] and to the identifier of the category by
    [_class_to_coco_cat_id]. *)
Theorem init_class_tables env image_set devkit_path ann_path self :
  __init__ env image_set devkit_path ann_path = inr self →
  NoDup ("__background__" :: (cat_name <$> loadCats (_COCO self))) →
  num_classes self = S (length (loadCats (_COCO self)))
  ∧ _classes self !! 0%nat = Some "__background__"
  ∧ _class_to_ind self !! "__background__" = Some 0%nat
  ∧ ∀ i c, loadCats (_COCO self) !! i = Some c →
      _classes self !! S i = Some (cat_name c)
      ∧ _class_to_ind self !! cat_name c = Some (S i)
      ∧ _class_to_coco_cat_id self !! cat_name c = Some (cat_id c).
Proof.
  intros Hinit Hnd. apply init_built_class_table in Hinit as Hbuilt.
  destruct (built_class_table_dense self Hbuilt Hnd) as [Hdense Hcats].
  destruct Hbuilt as (Hclasses & _ & _).
  split_and!.
  - unfold num_classes. rewrite Hclasses. simpl. by rewrite length_fmap.
  - by rewrite Hclasses.
  - apply Hdense. by rewrite Hclasses.
  - exact Hcats.
Qed.

Lemma init_class_tables_witness :
  num_classes demo_ds = 2%nat
  ∧ _class_to_ind demo_ds !! "pedestrian" = Some 1%nat
  ∧ _class_to_coco_cat_id demo_ds !! "pedestrian" = Some 1.
Proof.
  destruct (init_class_tables demo_env "val" None None demo_ds init_demo)
    as (Hnum & _ & _ & Hcats).
  - simpl. apply NoDup_cons. split; [|apply NoDup_singleton].
    intros Hin. apply list_elem_of_singleton in Hin. discriminate.
  - destruct (Hcats 0%nat {| cat_name := "pedestrian"; cat_id := 1 |} eq_refl)
      as (_ & Hind & Hcat).
    split_and!; [exact Hnum | exact Hind | exact Hcat].
Defined.

(** X7.  Lines 164-166.  When moreover the category identifiers are distinct, the
    table from category identifiers to class indices sends the identifier
    of the i-th category to i + 1, and holds nothing else. *)
Theorem coco_cat_id_to_class_ind_dense env image_set devkit_path ann_path self :
  __init__ env image_set devkit_path ann_path = inr self →
  NoDup ("__background__" :: (cat_name <$> loadCats (_COCO self))) →
  NoDup (getCatIds (_COCO self)) →
  ∃ table,
    coco_cat_id_to_class_ind self = inr table
    ∧ (∀ i c, loadCats (_COCO self) !! i = Some c → table !! cat_id c = Some (S i))
    ∧ (∀ id, id ∉ getCatIds (_COCO self) → table !! id = None).
Proof.
  intros Hinit Hnd Hids.
  pose proof (init_built_class_table _ _ _ _ _ Hinit) as Hbuilt.
  destruct (built_class_table_dense self Hbuilt Hnd) as [_ Hcats].
  pose proof Hnd as Hnames. apply NoDup_cons in Hnames as [_ Hnames].
  destruct (coco_cat_id_to_class_ind_built self Hbuilt Hnames) as (table & Htable & Hlook).
  exists table. split_and!; [done| |].
  - intros i c Hc.
    destruct (Hlook (cat_id c)) as (cls & Hcls & _).
    { apply list_elem_of_fmap. exists c. split; [done|]. by eapply list_elem_of_lookup_2. }
    rewrite Hcls. f_equal.
    pose proof Htable as Hpairs. unfold coco_cat_id_to_class_ind in Hpairs.
    apply bind_inr in Hpairs as (pairs & Hpairs & [= <-]).
    apply dict_of_list_elem in Hcls. apply list_elem_of_lookup in Hcls as [j Hj].
    apply mapM_inr in Hpairs.
    destruct (Forall2_lookup_r _ _ _ _ _ Hpairs Hj) as (name & Hname & Hstep).
    apply bind_inr in Hstep as (k & Hk & Hstep).
    apply bind_inr in Hstep as (v & Hv & [= -> ->]).
    apply getitem_inr in Hk. apply getitem_inr in Hv.
    destruct Hbuilt as (Hclasses & Hcat & _).
    rewrite Hclasses in Hname. simpl in Hname.
    rewrite list_lookup_fmap in Hname.
    destruct (loadCats (_COCO self) !! j) as [c'|] eqn:Hc'; [|done].
    injection Hname as <-.
    destruct (Hcats j c' Hc') as (_ & Hind' & Hcat').
    rewrite Hcat' in Hk. injection Hk as Hk.
    rewrite Hind' in Hv. injection Hv as <-.
    f_equal. apply (NoDup_lookup _ j i (cat_id c) Hids).
    + unfold getCatIds. rewrite list_lookup_fmap, Hc'. simpl. by rewrite Hk.
    + unfold getCatIds. by rewrite list_lookup_fmap, Hc.
  - intros id Hid. destruct (table !! id) as [cls|] eqn:Hcls; [|done].
    exfalso. apply Hid.
    by destruct (coco_cat_id_to_class_ind_keys self table _ _ Hbuilt Htable Hcls).
Qed.

Lemma coco_cat_id_to_class_ind_dense_witness :
  ∃ table,
    coco_cat_id_to_class_ind demo_ds = inr table
    ∧ table !! 1 = Some 1%nat
    ∧ table !! 7 = None.
Proof.
  destruct (coco_cat_id_to_class_ind_dense demo_env "val" None None demo_ds init_demo)
    as (table & Htable & Hcats & Hnone).
  - simpl. apply NoDup_cons. split; [|apply NoDup_singleton].
    intros Hin. apply list_elem_of_singleton in Hin. discriminate.
  - apply NoDup_singleton.
  - exists table. split_and!; [done | |].
    + exact (Hcats 0%nat {| cat_name := "pedestrian"; cat_id := 1 |} eq_refl).
    + apply Hnone. intros Hin. apply list_elem_of_singleton in Hin. discriminate.
Defined.

(** ** More on flipping *)

Lemma append_flipped_images_run self rdb fs :
  _roidb self = Some rdb →
  length (_image_index self) = length rdb →
  Forall flippable rdb →
  append_flipped_images self fs
  = (inr (set_roidb self (Some (rdb ++ (mirrored <$> rdb)))
            (_image_index self ++ _image_index self)), fs).
Proof.
  intros Hroidb Hidx Hall.
  unfold append_flipped_images, _get_widths, roidb. rewrite Hroidb.
  unfold mbind, io_bind, mret, io_ret, lift. simpl. rewrite Hroidb.
  unfold num_images. rewrite Hidx.
  pose proof (flip_loop_flippable rdb Hall (length rdb) 0 []) as Hloop.
  rewrite app_nil_r in Hloop. rewrite Hloop by lia.
  simpl. by rewrite drop_0, firstn_all.
Qed.

Lemma mirrored_flippable r : flippable r → flippable (mirrored r).
Proof.
  intros [Hw Hall]. split; [done|]. simpl.
  apply Forall_fmap. eapply Forall_impl; [exact Hall|].
  intros b (H0 & H12 & H2). unfold box_fits. simpl. lia.
Qed.

Lemma mirrored_twice r :
  mirrored (mirrored r)
  = {| width := width r; height := height r; boxes := boxes r;
       gt_classes := gt_classes r; gt_overlaps := gt_overlaps r;
       flipped := true; seg_areas := seg_areas r |}.
Proof.
  unfold mirrored. simpl. f_equal.
  rewrite <- list_fmap_compose. rewrite <- (list_fmap_id (boxes r)) at 2.
  apply list_fmap_ext. intros i [a1 b1 a2 b2] _. simpl. f_equal; lia.
Qed.

(** X8.  Lines 198-217.  The flipping step keeps its own precondition: after a
    successful call every record of the roidb, original or mirrored, again
    has width at most 65536 and boxes with 0 <= x1 <= x2 <= width - 1; the
    mirrored records are marked flipped, and the roidb and the index still
    have the same length. *)
Theorem append_flipped_images_keeps_invariant self rdb fs self' :
  _roidb self = Some rdb →
  length (_image_index self) = length rdb →
  Forall flippable rdb →
  append_flipped_images self fs = (inr self', fs) →
  ∃ rdb',
    _roidb self' = Some rdb'
    ∧ Forall flippable rdb'
    ∧ length (_image_index self') = length rdb'
    ∧ Forall (λ r, flipped r = true) (drop (length rdb) rdb')
    ∧ take (length rdb) rdb' = rdb.
Proof.
  intros Hroidb Hidx Hall Hrun.
  rewrite (append_flipped_images_run self rdb fs Hroidb Hidx Hall) in Hrun.
  injection Hrun as <-. eexists. split; [reflexivity|]. split_and!.
  - apply Forall_app. split; [done|].
    apply Forall_fmap. eapply Forall_impl; [exact Hall|].
    intros r Hr. by apply mirrored_flippable.
  - simpl. rewrite !length_app, length_fmap. lia.
  - rewrite drop_app_length. apply Forall_fmap. by apply Forall_true.
  - by rewrite take_app_length.
Qed.

Lemma append_flipped_images_keeps_invariant_witness :
  ∃ self' rdb',
    append_flipped_images (with_roidb [demo_record_93] [93]) ∅ = (inr self', ∅)
    ∧ _roidb self' = Some rdb'
    ∧ Forall flippable rdb'
    ∧ length (_image_index self') = length rdb'.
Proof.
  assert (append_flipped_images (with_roidb [demo_record_93] [93]) ∅
          = (inr (set_roidb (with_roidb [demo_record_93] [93])
                    (Some [demo_record_93; mirrored demo_record_93]) [93; 93]), ∅))
    as Hrun by reflexivity.
  assert (Forall flippable [demo_record_93]) as Hfits
    by (repeat constructor; simpl; lia).
  destruct (append_flipped_images_keeps_invariant
              (with_roidb [demo_record_93] [93]) [demo_record_93] ∅ _
              eq_refl eq_refl Hfits Hrun)
    as (rdb' & Hrdb & Hall & Hlen & _ & _).
  eexists _, rdb'. split_and!; [exact Hrun | done..].
Defined.

(** X9.  Lines 198-217.  Nothing stops a second call, and it does not skip the
    records that are already flipped: it mirrors all 2n records again, so
    the roidb ends with 4n records, the originals, their mirror images, the
    mirror images once more, and copies of the originals that are marked
    flipped, and the index holds every identifier four times. *)
Theorem append_flipped_images_twice self rdb fs :
  _roidb self = Some rdb →
  length (_image_index self) = length rdb →
  Forall flippable rdb →
  ∃ self1 self2,
    append_flipped_images self fs = (inr self1, fs)
    ∧ append_flipped_images self1 fs = (inr self2, fs)
    ∧ _roidb self2
      = Some (rdb ++ (mirrored <$> rdb) ++ (mirrored <$> rdb)
                  ++ (mirrored <$> (mirrored <$> rdb)))
    ∧ _image_index self2
      = _image_index self ++ _image_index self
        ++ _image_index self ++ _image_index self
    ∧ ∀ r, r ∈ rdb →
        boxes (mirrored (mirrored r)) = boxes r
        ∧ flipped (mirrored (mirrored r)) = true.
Proof.
  intros Hroidb Hidx Hall.
  eexists _, _. split; [by apply append_flipped_images_run|].
  split.
  - apply append_flipped_images_run.
    + reflexivity.
    + simpl. rewrite !length_app, length_fmap. lia.
    + apply Forall_app. split; [done|].
      apply Forall_fmap. eapply Forall_impl; [exact Hall|].
      intros r Hr. by apply mirrored_flippable.
  - split_and!.
    + simpl. by rewrite fmap_app, <- !app_assoc.
    + simpl. by rewrite <- !app_assoc.
    + intros r _. by rewrite mirrored_twice.
Qed.

Lemma append_flipped_images_twice_witness :
  ∃ self1 self2,
    append_flipped_images (with_roidb [demo_record_93] [93]) ∅ = (inr self1, ∅)
    ∧ append_flipped_images self1 ∅ = (inr self2, ∅)
    ∧ (flipped <$> default [] (_roidb self2)) = [false; true; true; true]
    ∧ _image_index self2 = [93; 93; 93; 93].
Proof.
  destruct (append_flipped_images_twice
              (with_roidb [demo_record_93] [93]) [demo_record_93] ∅)
    as (self1 & self2 & Hone & Htwo & Hrdb & Hidx & _).
  - reflexivity.
  - reflexivity.
  - repeat constructor; simpl; lia.
  - exists self1, self2. split_and!; [done | done | | done].
    by rewrite Hrdb.
Defined.

Lemma flip_loop_state_app widths range1 range2 rdb :
  flip_loop_state widths (range1 ++ range2) rdb
  = match flip_loop_state widths range1 rdb with
    | (inr _, rdb') => flip_loop_state widths range2 rdb'
    | (inl e, rdb') => (inl e, rdb')
    end.
Proof.
  revert rdb. induction range1 as [|i range1 IH]; intros rdb; [done|].
  simpl. destruct (index rdb i) as [e|r]; simpl; [done|].
  destruct (index widths i) as [e|w]; simpl; [done|].
  destruct (flip_entry w r) as [e|entry]; simpl; [done|].
  apply IH.
Qed.

(** The loop that keeps track of the roidb it leaves behind computes what
    [flip_loop] computes. *)
Lemma flip_loop_state_result widths range rdb :
  flip_loop widths range rdb
  = match flip_loop_state widths range rdb with
    | (inr _, rdb') => inr rdb'
    | (inl e, _) => inl e
    end.
Proof.
  revert rdb. induction range as [|i range IH]; intros rdb; [done|].
  simpl. destruct (index rdb i) as [e|r]; simpl; [done|].
  destruct (index widths i) as [e|w]; simpl; [done|].
  destruct (flip_entry w r) as [e|entry]; simpl; [done|].
  apply IH.
Qed.

(** [append_flipped_images_state] returns what [append_flipped_images]
    returns, and on success leaves the instance it returns. *)
Lemma append_flipped_images_state_result self fs :
  append_flipped_images self fs
  = match append_flipped_images_state self fs with
    | (inr _, self', fs') => (inr self', fs')
    | (inl e, _, fs') => (inl e, fs')
    end.
Proof.
  unfold append_flipped_images, append_flipped_images_state.
  unfold mbind at 1. unfold io_bind.
  destruct (_get_widths self fs) as [[e|[widths self1]] fs1]; [done|].
  unfold mbind at 1. unfold io_bind.
  destruct (roidb self1 fs1) as [[e|[rdb self2]] fs2]; [done|].
  unfold mbind, io_bind, lift, mret, io_ret.
  rewrite flip_loop_state_result.
  by destruct (flip_loop_state widths (seq 0 (num_images self)) rdb) as [[e|[]] rdb'].
Qed.

(** X10.  Lines 199-217.  The loop runs over the length of the index.  When
    the roidb has fewer records than the index has identifiers, and its
    records satisfy the precondition of the flip (width at most 65536,
    0 <= x1 <= x2 <= width - 1), the call raises [IndexError] (at
    [widths[i]], or at [self.roidb[i]] when the roidb is empty) and touches
    no file.  The instance it leaves behind has its index unchanged, not
    doubled, but its roidb already holds the mirrored copy of every
    record: the roidb is appended to in place before the exception. *)
Theorem append_flipped_images_short_roidb self rdb fs :
  _roidb self = Some rdb →
  Forall flippable rdb →
  (length rdb < length (_image_index self))%nat →
  append_flipped_images self fs = (inl IndexError, fs)
  ∧ append_flipped_images_state self fs
    = (inl IndexError,
       set_roidb self (Some (rdb ++ (mirrored <$> rdb))) (_image_index self),
       fs).
Proof.
  intros Hroidb Hall Hshort.
  assert (append_flipped_images_state self fs
          = (inl IndexError,
             set_roidb self (Some (rdb ++ (mirrored <$> rdb))) (_image_index self),
             fs)) as Hstate.
  { unfold append_flipped_images_state, _get_widths, roidb. rewrite Hroidb.
    unfold mbind, io_bind, mret, io_ret. simpl. rewrite Hroidb.
    unfold num_images.
    replace (length (_image_index self))
      with (length rdb + S (length (_image_index self) - S (length rdb)))%nat by lia.
    rewrite seq_app, flip_loop_state_app.
    pose proof (flip_loop_flippable rdb Hall (length rdb) 0 []) as Hloop.
    rewrite app_nil_r in Hloop. specialize (Hloop ltac:(lia)).
    rewrite flip_loop_state_result in Hloop.
    destruct (flip_loop_state (width <$> rdb) (seq 0 (length rdb)) rdb)
      as [[e|[]] rdb'] eqn:Hst; [done|].
    injection Hloop as ->. simpl. rewrite drop_0, firstn_all. unfold index.
    destruct ((rdb ++ (mirrored <$> rdb)) !! length rdb) as [r|]; simpl; [|done].
    rewrite list_lookup_fmap, (lookup_ge_None_2 rdb) by lia. done. }
  split; [|done].
  rewrite append_flipped_images_state_result. by rewrite Hstate.
Qed.

Lemma append_flipped_images_short_roidb_witness :
  append_flipped_images (with_roidb [demo_record_93] [93; 7]) ∅
  = (inl IndexError, ∅)
  ∧ _image_index (append_flipped_images_state (with_roidb [demo_record_93] [93; 7]) ∅).1.2
    = [93; 7]
  ∧ _roidb (append_flipped_images_state (with_roidb [demo_record_93] [93; 7]) ∅).1.2
    = Some [demo_record_93; mirrored demo_record_93].
Proof.
  destruct (append_flipped_images_short_roidb
              (with_roidb [demo_record_93] [93; 7]) [demo_record_93] ∅)
    as [Hrun Hstate].
  - reflexivity.
  - repeat constructor; simpl; lia.
  - simpl. lia.
  - rewrite Hstate. split_and!; [exact Hrun | reflexivity | reflexivity].
Defined.

Lemma load_coco_annotation_flippable self index r :
  _load_coco_annotation self index = inr r → width r ≤ 65536 → flippable r.
Proof.
  intros Hload Hw.
  apply load_coco_annotation_inr in Hload
    as (im & table & rows & _ & _ & _ & Hval & ->).
  split; [done|]. simpl in *. eapply Forall_impl; [exact Hval|].
  intros b (H0 & H12 & H2 & _). done.
Qed.

(** X11.  Lines 124-125, 198-217.  The conversion establishes what the flipping
    step needs: when the roidb is the sequence [_load_coco_annotation]
    returns for the identifiers of the index and no image is wider than
    65536 pixels, [append_flipped_images] succeeds and doubles the roidb
    and the index. *)
Theorem append_flipped_images_after_conversion self rdb fs :
  mapM (_load_coco_annotation self) (_image_index self) = inr rdb →
  _roidb self = Some rdb →
  Forall (λ r, width r ≤ 65536) rdb →
  append_flipped_images self fs
  = (inr (set_roidb self (Some (rdb ++ (mirrored <$> rdb)))
            (_image_index self ++ _image_index self)), fs).
Proof.
  intros Hconv Hroidb Hwide.
  apply append_flipped_images_run; [done| |].
  - symmetry. by eapply mapM_length.
  - apply mapM_inr in Hconv. clear Hroidb.
    induction Hconv as [|index r l rdb Hload _ IH]; [constructor|].
    apply Forall_cons in Hwide as [Hw Hwide].
    constructor; [by eapply load_coco_annotation_flippable | by apply IH].
Qed.

Lemma append_flipped_images_after_conversion_witness :
  ∃ self',
    append_flipped_images (with_roidb demo_roidb [93; 7]) ∅ = (inr self', ∅)
    ∧ length <$> _roidb self' = Some 4%nat.
Proof.
  eexists. split.
  - apply (append_flipped_images_after_conversion _ demo_roidb).
    + vm_compute. reflexivity.
    + reflexivity.
    + repeat constructor; simpl; lia.
  - reflexivity.
Defined.

(** ** Positions of the image index *)

Lemma getitem_int_out_of_range {A} (l : list A) (i : Z) :
  i < - Z.of_nat (length l) ∨ Z.of_nat (length l) ≤ i →
  getitem_int l i = inl IndexError.
Proof.
  intros Hi. unfold getitem_int.
  rewrite decide_False by lia. by rewrite decide_False by lia.
Qed.

Lemma getitem_int_negative {A} (l : list A) (i : Z) :
  - Z.of_nat (length l) ≤ i < 0 →
  getitem_int l i = getitem_int l (Z.of_nat (length l) + i).
Proof.
  intros Hi. unfold getitem_int.
  rewrite (decide_False (P := 0 ≤ i < _)) by lia.
  rewrite decide_True by lia. by rewrite decide_True by lia.
Qed.

(** X12.  Lines 87-97.  [image_path_at] and [image_id_at] index the image index
    as Python does: a position at or beyond its length, or below minus its
    length, raises [IndexError] (before the disk is consulted), and a
    negative position in range counts from the end. *)
Theorem image_path_at_positions self i fs :
  let n := Z.of_nat (length (_image_index self)) in
  (i < - n ∨ n ≤ i →
     image_path_at self i fs = (inl IndexError, fs)
     ∧ image_id_at self i = inl IndexError)
  ∧ (- n ≤ i < 0 →
     image_path_at self i fs = image_path_at self (n + i) fs
     ∧ image_id_at self i = image_id_at self (n + i)).
Proof.
  intros n. split; intros Hi.
  - unfold image_path_at, image_id_at, mbind, io_bind, lift.
    by rewrite getitem_int_out_of_range.
  - unfold image_path_at, image_id_at, mbind, io_bind, lift.
    by rewrite getitem_int_negative.
Qed.

Lemma image_path_at_positions_witness :
  image_path_at demo_ds 2 demo_disk = (inl IndexError, demo_disk)
  ∧ image_path_at demo_ds (-2) demo_disk = image_path_at demo_ds 0 demo_disk
  ∧ image_id_at demo_ds (-1) = inr 7.
Proof.
  destruct (image_path_at_positions demo_ds 2 demo_disk) as [Hout _].
  destruct (image_path_at_positions demo_ds (-2) demo_disk) as [_ Hneg].
  destruct (image_path_at_positions demo_ds (-1) demo_disk) as [_ Hlast].
  split_and!.
  - apply Hout. simpl. lia.
  - apply Hneg. simpl. lia.
  - destruct Hlast as [_ ->]; [simpl; lia | reflexivity].
Defined.

(** X13.  Lines 91, 97, 217.  After [append_flipped_images] the mirrored record at
    position n + i carries the identifier, and resolves to the image file,
    of the original at position i: identifiers are no longer unique in the
    index. *)
Theorem image_id_at_after_flip self rdb fs self' fs' i :
  _roidb self = Some rdb →
  length (_image_index self) = length rdb →
  Forall flippable rdb →
  append_flipped_images self fs = (inr self', fs) →
  0 ≤ i < Z.of_nat (length rdb) →
  image_id_at self' (Z.of_nat (length rdb) + i) = image_id_at self i
  ∧ image_id_at self' i = image_id_at self i
  ∧ image_path_at self' (Z.of_nat (length rdb) + i) fs' = image_path_at self i fs'.
Proof.
  intros Hroidb Hidx Hall Hrun Hi.
  rewrite (append_flipped_images_run self rdb fs Hroidb Hidx Hall) in Hrun.
  injection Hrun as <-.
  assert (∀ j, 0 ≤ j < Z.of_nat (length rdb) →
            getitem_int (_image_index self ++ _image_index self) j
            = getitem_int (_image_index self) j) as Hlow.
  { intros j Hj. unfold getitem_int. rewrite length_app.
    rewrite !decide_True by lia. unfold index.
    by rewrite lookup_app_l by lia. }
  assert (getitem_int (_image_index self ++ _image_index self)
            (Z.of_nat (length rdb) + i)
          = getitem_int (_image_index self) i) as Hhigh.
  { unfold getitem_int. rewrite length_app.
    rewrite !decide_True by lia. unfold index.
    rewrite lookup_app_r by lia.
    replace (Z.to_nat (Z.of_nat (length rdb) + i) - length (_image_index self))%nat
      with (Z.to_nat i) by lia.
    done. }
  unfold image_id_at, image_path_at. simpl.
  split_and!; [done | by apply Hlow |].
  unfold mbind, io_bind, lift. by rewrite Hhigh.
Qed.

Lemma image_id_at_after_flip_witness :
  ∃ self',
    append_flipped_images (with_roidb demo_roidb [93; 7]) ∅ = (inr self', ∅)
    ∧ image_id_at self' 2 = inr 93
    ∧ image_id_at self' 3 = inr 7.
Proof.
  assert (Forall flippable demo_roidb) as Hfits
    by (repeat constructor; simpl; lia).
  pose proof (append_flipped_images_run (with_roidb demo_roidb [93; 7]) demo_roidb
                ∅ eq_refl eq_refl Hfits) as Hrun.
  eexists. split; [exact Hrun|].
  destruct (image_id_at_after_flip (with_roidb demo_roidb [93; 7]) demo_roidb
              ∅ _ ∅ 0 eq_refl eq_refl Hfits Hrun) as (Hid0 & _ & _);
    [simpl; lia|].
  destruct (image_id_at_after_flip (with_roidb demo_roidb [93; 7]) demo_roidb
              ∅ _ ∅ 1 eq_refl eq_refl Hfits Hrun) as (Hid1 & _ & _);
    [simpl; lia|].
  split; [exact Hid0 | exact Hid1].
Defined.

(** ** More on the ground-truth cache *)

(** X14.  Lines 116-130.  [gt_roidb] touches no file but the cache file; when it
    raises, the disk is as it was; when it returns, the cache file holds
    exactly the sequence returned. *)
Theorem gt_roidb_frame self fs :
  (∀ p, p ≠ cache_file self → (gt_roidb self fs).2 !! p = fs !! p)
  ∧ (∀ e, (gt_roidb self fs).1 = inl e → (gt_roidb self fs).2 = fs)
  ∧ (∀ r, (gt_roidb self fs).1 = inr r →
          (gt_roidb self fs).2 !! cache_file self = Some (PickledRoidb r)).
Proof.
  rewrite gt_roidb_unfold.
  destruct (bool_decide (is_Some (fs !! cache_file self)) && _use_cache self).
  - unfold pickle_load_roidb.
    destruct (fs !! cache_file self) as [[cached| | |]|] eqn:Hfile; simpl;
      split_and!; try done.
    intros r [= <-]. done.
  - unfold compute_and_store.
    destruct (mapM _ _) as [e|recs]; simpl; split_and!; try done.
    + intros p Hp. by rewrite lookup_insert_ne.
    + intros r [= <-]. apply lookup_insert_eq.
Qed.

Lemma gt_roidb_leaves_cache self fs rdb fs' :
  gt_roidb self fs = (inr rdb, fs') →
  fs' !! cache_file self = Some (PickledRoidb rdb).
Proof.
  rewrite gt_roidb_unfold.
  destruct (bool_decide (is_Some (fs !! cache_file self)) && _use_cache self).
  - unfold pickle_load_roidb.
    destruct (fs !! cache_file self) as [[cached| | |]|] eqn:Hfile; try done.
    by intros [= <- <-].
  - unfold compute_and_store.
    destruct (mapM _ _) as [e|recs]; [done|].
    intros [= <- <-]. apply lookup_insert_eq.
Qed.

Lemma init_cache_file env image_set devkit_path ann_path self :
  __init__ env image_set devkit_path ann_path = inr self →
  cache_file self
  = osp_join (imdb_cache_path env) [("WiderPedestrian_" +:+ image_set) +:+ "_gt_roidb.pkl"].
Proof.
  unfold __init__. intros Hinit.
  destruct (COCO_ctor env _) as [coco|]; [|done]. simpl in Hinit.
  by injection Hinit as <-.
Qed.

Lemma init_use_cache_flag env image_set devkit_path self :
  __init__ env image_set devkit_path None = inr self → _use_cache self = true.
Proof.
  unfold __init__. intros Hinit.
  destruct (COCO_ctor env _) as [coco|]; [|done]. simpl in Hinit.
  by injection Hinit as <-.
Qed.

(** X15.  Lines 29, 39, 116-122.  The cache file is named after the image set
    alone.  Two instances built for the same image set without an
    annotation path share it, whatever their devkit paths and annotation
    indexes are: once the first has returned its roidb, the second returns
    that same roidb and converts nothing. *)
Theorem gt_roidb_shared_cache env image_set devkit1 devkit2 self1 self2 fs rdb fs' :
  __init__ env image_set devkit1 None = inr self1 →
  __init__ env image_set devkit2 None = inr self2 →
  gt_roidb self1 fs = (inr rdb, fs') →
  cache_file self1 = cache_file self2
  ∧ gt_roidb self2 fs' = (inr rdb, fs').
Proof.
  intros Hinit1 Hinit2 Hrun.
  assert (cache_file self1 = cache_file self2) as Hsame.
  { by rewrite (init_cache_file _ _ _ _ _ Hinit1), (init_cache_file _ _ _ _ _ Hinit2). }
  split; [done|].
  apply gt_roidb_hit.
  - by apply (init_use_cache_flag _ _ _ _ Hinit2).
  - rewrite <- Hsame. by eapply gt_roidb_leaves_cache.
Qed.

Lemma gt_roidb_shared_cache_witness :
  ∃ self1 self2 fs',
    __init__ two_devkits_env "val" None None = inr self1
    ∧ __init__ two_devkits_env "val" (Some "other") None = inr self2
    ∧ _image_index self1 = [93; 7]
    ∧ _image_index self2 = [1; 2]
    ∧ gt_roidb self1 ∅ = (inr demo_roidb, fs')
    ∧ gt_roidb self2 fs' = (inr demo_roidb, fs').
Proof.
  destruct (__init__ two_devkits_env "val" None None) as [e|self1] eqn:Hinit1;
    [vm_compute in Hinit1; discriminate|].
  destruct (__init__ two_devkits_env "val" (Some "other") None) as [e|self2] eqn:Hinit2;
    [vm_compute in Hinit2; discriminate|].
  assert (gt_roidb self1 ∅
          = (inr demo_roidb, <[cache_file self1 := PickledRoidb demo_roidb]> ∅)) as Hrun.
  { rewrite gt_roidb_miss by (by right). unfold compute_and_store.
    assert (mapM (_load_coco_annotation self1) (_image_index self1) = inr demo_roidb)
      as ->; [|done].
    vm_compute in Hinit1. injection Hinit1 as <-. vm_compute. reflexivity. }
  destruct (gt_roidb_shared_cache _ _ _ _ _ _ _ _ _ Hinit1 Hinit2 Hrun) as [_ Hagain].
  exists self1, self2, (<[cache_file self1 := PickledRoidb demo_roidb]> ∅).
  split_and!; try done.
  - vm_compute in Hinit1. by injection Hinit1 as <-.
  - vm_compute in Hinit2. by injection Hinit2 as <-.
Defined.

(** ** More on the results file *)

Lemma elem_of_concat {A} (ls : list (list A)) (x : A) :
  x ∈ concat ls ↔ ∃ l, l ∈ ls ∧ x ∈ l.
Proof.
  rewrite list_elem_of_In, in_concat. split; intros (l & Hl & Hx); exists l.
  - by rewrite !list_elem_of_In.
  - by rewrite <- !list_elem_of_In.
Qed.

Lemma category_results_elem image_index boxes cat_id e :
  e ∈ category_results image_index boxes cat_id →
  image_id e ∈ image_index ∧ res_category_id e = cat_id ∧ length (res_bbox e) = 4%nat.
Proof.
  unfold category_results. intros He.
  apply elem_of_concat in He as (l & Hl & He).
  apply elem_of_zip_with in Hl as (index & dets & -> & Hindex & _).
  apply list_elem_of_fmap in He as (d & -> & _). done.
Qed.

(** X16.  Lines 272-306.  For detections of the right shape the results file
    gets only entries about images of the index and categories of the
    annotation index (never the background class), each with a bbox of four
    numbers, and no other file changes. *)
Theorem write_coco_results_file_entries self all_boxes res_file fs :
  built_class_table self →
  length all_boxes = num_classes self →
  Forall (λ boxes, length boxes = num_images self) all_boxes →
  ∃ rs,
    _write_coco_results_file self all_boxes res_file fs
    = (inr (), <[res_file := JsonResults rs]> fs)
    ∧ ∀ e, e ∈ rs →
        image_id e ∈ _image_index self
        ∧ res_category_id e ∈ getCatIds (_COCO self)
        ∧ length (res_bbox e) = 4%nat.
Proof.
  intros Hbuilt Hlen Hshape. exists (flat_results self all_boxes).
  split; [by apply write_coco_results_file_run|].
  intros e He. unfold flat_results in He.
  apply elem_of_concat in He as (l & Hl & He).
  apply elem_of_zip_with in Hl as (cls & boxes & -> & Hcls & _).
  case_bool_decide; [by apply elem_of_nil in He|].
  destruct (_class_to_coco_cat_id self !! cls) as [cat|] eqn:Hcat;
    [|by apply elem_of_nil in He].
  apply category_results_elem in He as (Hid & -> & Hbox).
  split_and!; [done| |done].
  destruct Hbuilt as (_ & Htable & _). rewrite Htable in Hcat.
  apply dict_of_list_elem in Hcat. unfold getCatIds in *.
  rewrite pyzip_fmap in Hcat.
  apply list_elem_of_fmap in Hcat as (c & [= _ ->] & Hc).
  apply list_elem_of_fmap. by exists c.
Qed.

Lemma write_coco_results_file_entries_witness :
  ∃ rs,
    _write_coco_results_file demo_ds demo_all_boxes "out/res.json" ∅
    = (inr (), <["out/res.json" := JsonResults rs]> ∅)
    ∧ ∀ e, e ∈ rs → image_id e ∈ [93; 7] ∧ res_category_id e ∈ [1].
Proof.
  destruct (write_coco_results_file_entries demo_ds demo_all_boxes "out/res.json" ∅)
    as (rs & Hrun & Hrs).
  - by apply (init_built_class_table demo_env "val" None None).
  - reflexivity.
  - repeat constructor.
  - exists rs. split; [done|]. intros e He.
    destruct (Hrs e He) as (Hid & Hcat & _). done.
Defined.

Lemma category_results_length image_index boxes cat_id :
  length boxes = length image_index →
  length (category_results image_index boxes cat_id) = sum_list (length <$> boxes).
Proof.
  unfold category_results. revert boxes.
  induction image_index as [|index rest IH]; intros [|dets boxes] Hlen;
    try done.
  simpl in *. rewrite length_app, length_fmap. f_equal. apply IH. lia.
Qed.

(** X17.  Lines 272-306.  No detection is lost or repeated: when no category is
    named [__background__], the number of entries written is the number of
    detection rows of the classes 1, 2, ... over all images. *)
Theorem write_coco_results_file_count self all_boxes res_file fs :
  built_class_table self →
  "__background__" ∉ cat_name <$> loadCats (_COCO self) →
  length all_boxes = num_classes self →
  Forall (λ boxes, length boxes = num_images self) all_boxes →
  ∃ rs,
    _write_coco_results_file self all_boxes res_file fs
    = (inr (), <[res_file := JsonResults rs]> fs)
    ∧ length rs
      = sum_list ((λ boxes, sum_list (length <$> boxes)) <$> drop 1 all_boxes).
Proof.
  intros Hbuilt Hbg Hlen Hshape. exists (flat_results self all_boxes).
  split; [by apply write_coco_results_file_run|].
  unfold flat_results.
  pose proof Hbuilt as (Hclasses & _ & _). rewrite Hclasses.
  destruct all_boxes as [|boxes0 rest]; [done|].
  apply Forall_cons in Hshape as [_ Hshape]. simpl. rewrite drop_0.
  assert (∀ names, names ⊆ cat_name <$> loadCats (_COCO self) →
            length
              (concat
                 (zip_with
                    (λ cls boxes,
                       if bool_decide (cls = "__background__") then []
                       else match _class_to_coco_cat_id self !! cls with
                            | Some cat_id =>
                                category_results (_image_index self) boxes cat_id
                            | None => []
                            end)
                    names rest))
            = sum_list ((λ boxes, sum_list (length <$> boxes))
                          <$> take (length names) rest)) as Hgen.
  { clear Hlen. revert Hshape. generalize rest. clear rest.
    intros rest Hshape names. revert rest Hshape.
    induction names as [|cls names IH]; intros rest Hshape Hsub; [done|].
    destruct rest as [|boxes rest]; [done|].
    apply Forall_cons in Hshape as [Hboxes Hshape].
    simpl. rewrite length_app. rewrite IH by (done || set_solver).
    f_equal. rewrite bool_decide_eq_false_2 by set_solver.
    destruct (built_class_table_covers self cls Hbuilt) as [cat ->].
    - rewrite Hclasses. apply elem_of_cons; right. set_solver.
    - set_solver.
    - by apply category_results_length. }
  rewrite Hgen by done. f_equal. f_equal. apply take_ge.
  unfold num_classes in Hlen. rewrite Hclasses in Hlen. simpl in Hlen. lia.
Qed.

Lemma write_coco_results_file_count_witness :
  ∃ rs,
    _write_coco_results_file demo_ds demo_all_boxes "out/res.json" ∅
    = (inr (), <["out/res.json" := JsonResults rs]> ∅)
    ∧ length rs = 1%nat.
Proof.
  destruct (write_coco_results_file_count demo_ds demo_all_boxes "out/res.json" ∅)
    as (rs & Hrun & Hcount).
  - by apply (init_built_class_table demo_env "val" None None).
  - simpl. intros Hin. apply list_elem_of_singleton in Hin. discriminate.
  - reflexivity.
  - repeat constructor.
  - exists rs. split; [done|]. rewrite Hcount. reflexivity.
Defined.

Lemma collect_results_too_few self all_boxes :
  (∀ cls, cls ∈ _classes self → cls ≠ "__background__" →
          is_Some (_class_to_coco_cat_id self !! cls)) →
  Forall (λ boxes, length boxes = num_images self) all_boxes →
  ∀ classes k acc,
    classes ⊆ _classes self →
    "__background__" ∉ classes →
    (k ≤ length all_boxes < k + length classes)%nat →
    collect_results self all_boxes k classes acc = inl IndexError.
Proof.
  intros Htable Hshape.
  induction classes as [|cls rest IH]; intros k acc Hsub Hbg Hlen.
  - simpl in Hlen. lia.
  - simpl. rewrite bool_decide_eq_false_2 by set_solver.
    destruct (Htable cls) as [cat Hcat]; [set_solver | set_solver |].
    unfold getitem, index. rewrite Hcat. simpl.
    destruct (all_boxes !! k) as [boxes|] eqn:Hboxes; [|done]. simpl.
    unfold _coco_results_one_category.
    rewrite one_category_loop_spec; last first.
    { rewrite Forall_forall in Hshape.
      rewrite (Hshape boxes) by (by eapply list_elem_of_lookup_2).
      unfold num_images. lia. }
    simpl. apply IH; [set_solver | set_solver |].
    apply lookup_lt_Some in Hboxes. simpl in Hlen. lia.
Qed.

(** X18.  Lines 296-303.  When [all_boxes] holds detections for the background
    class but for fewer classes than the instance has, and no category is
    named [__background__], [_write_coco_results_file] raises [IndexError]
    and writes no file. *)
Theorem write_coco_results_file_too_few self all_boxes res_file fs :
  built_class_table self →
  "__background__" ∉ cat_name <$> loadCats (_COCO self) →
  (1 ≤ length all_boxes < num_classes self)%nat →
  Forall (λ boxes, length boxes = num_images self) all_boxes →
  _write_coco_results_file self all_boxes res_file fs = (inl IndexError, fs).
Proof.
  intros Hbuilt Hbg Hlen Hshape.
  unfold _write_coco_results_file, mbind, io_bind, lift.
  pose proof Hbuilt as (Hclasses & _ & _).
  assert (collect_results self all_boxes 0 (_classes self) [] = inl IndexError)
    as ->; [|done].
  rewrite Hclasses. simpl.
  apply (collect_results_too_few self all_boxes); try done.
  - intros cls. by apply built_class_table_covers.
  - rewrite Hclasses. intros cls Hcls. by apply elem_of_cons; right.
  - unfold num_classes in Hlen. rewrite Hclasses in Hlen. simpl in *. lia.
Qed.

Lemma write_coco_results_file_too_few_witness :
  _write_coco_results_file demo_ds [ [ []; [] ] ] "out/res.json" ∅
  = (inl IndexError, ∅).
Proof.
  apply write_coco_results_file_too_few.
  - by apply (init_built_class_table demo_env "val" None None).
  - simpl. intros Hin. apply list_elem_of_singleton in Hin. discriminate.
  - unfold num_classes. simpl. lia.
  - repeat constructor.
Defined.

(** ** File names *)

Lemma nonzero_digit_plain c :
  nonzero_digit c → c ≠ "0"%char ∧ c ≠ "-"%char ∧ c ≠ "+"%char.
Proof.
  intros (k & Hk & ->).
  assert (k = 1 ∨ k = 2 ∨ k = 3 ∨ k = 4 ∨ k = 5 ∨ k = 6 ∨ k = 7 ∨ k = 8 ∨ k = 9)%N
    as Hcases by lia.
  repeat (destruct Hcases as [->|Hcases]); try subst k; done.
Qed.

(** The decimal notation of a positive number starts with a digit that is
    not zero. *)
Lemma pretty_N_go_head (x : N) :
  (0 < x)%N →
  ∀ s, ∃ c rest, pretty_N_go x s = String c rest ∧ nonzero_digit c.
Proof.
  induction (N.lt_wf_0 x) as [x _ IH]. intros Hx s.
  rewrite pretty_N_go_step by done.
  destruct (decide (x < 10)%N) as [Hsmall|Hbig].
  - rewrite N.div_small by done. rewrite pretty_N_go_0.
    eexists _, _. split; [done|]. exists x. rewrite N.mod_small by done.
    split; [lia | done].
  - apply IH.
    + apply N.div_lt; lia.
    + apply N.div_str_pos. lia.
Qed.

Lemma str_positive (z : Z) :
  0 < z → ∃ c rest, str z = String c rest ∧ nonzero_digit c.
Proof.
  intros Hz. destruct z as [|p|p]; try lia.
  unfold str, pretty, pretty_Z, pretty, pretty_positive, pretty, pretty_N.
  rewrite decide_False by done. by apply pretty_N_go_head.
Qed.

Lemma str_negative (z : Z) :
  z < 0 → ∃ c rest, str z = String "-" (String c rest) ∧ nonzero_digit c.
Proof.
  intros Hz. destruct z as [|p|p]; try lia.
  unfold str, pretty, pretty_Z, pretty, pretty_positive, pretty, pretty_N.
  rewrite decide_False by done.
  destruct (pretty_N_go_head (N.pos p) eq_refl "") as (c & rest & -> & Hc).
  by exists c, rest.
Qed.

Lemma strip_zeros_digit c rest :
  nonzero_digit c → strip_zeros (String c rest) = String c rest.
Proof.
  intros Hc. apply nonzero_digit_plain in Hc as (H0 & _). simpl.
  by rewrite bool_decide_eq_false_2.
Qed.

Lemma strip_zeros_zeros k s :
  s ≠ "" → strip_zeros (zeros k +:+ s) = strip_zeros s.
Proof.
  intros Hs. induction k as [|k IH]; [done|].
  simpl zeros. rewrite string_app_cons. simpl.
  rewrite bool_decide_eq_false_2; [done|].
  destruct k; simpl; [by rewrite string_app_nil | by rewrite string_app_cons].
Qed.

Lemma unzfill_dash rest : unzfill (String "-" rest) = String "-" (strip_zeros rest).
Proof. reflexivity. Qed.

Lemma unzfill_plain c rest :
  c ≠ "-"%char → unzfill (String c rest) = strip_zeros (String c rest).
Proof. intros Hc. unfold unzfill. by rewrite bool_decide_eq_false_2. Qed.

(** Zero-filling loses nothing: dropping the leading zeros of
    [str(n).zfill(width)], after the sign if there is one, gives [str(n)]
    back, for every integer [n] and every width. *)
Lemma unzfill_zfill (width : nat) (z : Z) :
  unzfill (zfill width (str z)) = str z.
Proof.
  unfold zfill. case_decide as Hlen.
  - destruct (Z.lt_trichotomy z 0) as [Hz|[->|Hz]].
    + destruct (str_negative z Hz) as (c & rest & -> & Hc).
      by rewrite unzfill_dash, strip_zeros_digit.
    + done.
    + destruct (str_positive z Hz) as (c & rest & -> & Hc).
      pose proof (nonzero_digit_plain c Hc) as (_ & Hdash & _).
      by rewrite unzfill_plain, strip_zeros_digit.
  - destruct (Z.lt_trichotomy z 0) as [Hz|[->|Hz]].
    + destruct (str_negative z Hz) as (c & rest & -> & Hc).
      rewrite decide_True by (by right).
      rewrite unzfill_dash, strip_zeros_zeros by done.
      by rewrite strip_zeros_digit.
    + change (unzfill (zeros (width - 1) +:+ "0") = "0").
      destruct (zeros _) as [|c0 fill] eqn:Hfill; [done|].
      assert (c0 = "0"%char) as ->.
      { destruct (width - 1)%nat; simpl in Hfill; [done|]. by injection Hfill. }
      rewrite string_app_cons, unzfill_plain by done.
      rewrite <- string_app_cons, <- Hfill. by rewrite strip_zeros_zeros.
    + destruct (str_positive z Hz) as (c & rest & -> & Hc).
      pose proof (nonzero_digit_plain c Hc) as (_ & Hdash & Hplus).
      rewrite decide_False by (intros [?|?]; done).
      destruct (zeros _) as [|c0 fill] eqn:Hfill.
      * by rewrite string_app_nil, unzfill_plain, strip_zeros_digit.
      * assert (c0 = "0"%char) as ->.
        { destruct (width - _)%nat; simpl in Hfill; [done|]. by injection Hfill. }
        rewrite string_app_cons, unzfill_plain by done.
        rewrite <- string_app_cons, <- Hfill.
        rewrite strip_zeros_zeros by done. by apply strip_zeros_digit.
Qed.

Lemma string_app_inj_r (s t u : string) : s +:+ u = t +:+ u → s = t.
Proof.
  revert t. induction s as [|c s IH]; intros [|c' t] Heq.
  - done.
  - exfalso. apply (f_equal String.length) in Heq.
    rewrite string_app_nil, string_app_cons in Heq. simpl in Heq.
    rewrite string_app_length in Heq. lia.
  - exfalso. apply (f_equal String.length) in Heq.
    rewrite string_app_nil, string_app_cons in Heq. simpl in Heq.
    rewrite string_app_length in Heq. lia.
  - rewrite !string_app_cons in Heq. injection Heq as -> Heq.
    f_equal. by apply IH.
Qed.

Lemma image_file_name_inj (a b : Z) :
  image_file_name a = image_file_name b → a = b.
Proof.
  unfold image_file_name. intros Heq.
  apply (inj (String.append "img")) in Heq.
  apply string_app_inj_r in Heq.
  apply (f_equal unzfill) in Heq. rewrite !unzfill_zfill in Heq.
  by apply (inj pretty) in Heq.
Qed.

(** X19.  Lines 105-106.  Under one data path, images with different identifiers
    have different file names and different paths. *)
Theorem image_path_distinct (data_path : string) (a b : Z) :
  a ≠ b →
  image_file_name a ≠ image_file_name b
  ∧ osp_join data_path ["JPEGImages"; image_file_name a]
    ≠ osp_join data_path ["JPEGImages"; image_file_name b].
Proof.
  intros Hne. split.
  - intros Heq. by apply Hne, image_file_name_inj.
  - unfold osp_join. simpl.
    generalize (join2 data_path "JPEGImages"). intros dir Heq.
    apply Hne, image_file_name_inj.
    unfold join2 in Heq.
    assert (∀ n, startswith_sep (image_file_name n) = false) as Hstart by done.
    rewrite !Hstart in Heq.
    destruct (bool_decide (dir = "") || endswith_sep dir).
    + by apply (inj (String.append dir)) in Heq.
    + apply (inj (String.append dir)) in Heq.
      by apply (inj (String.append "/")) in Heq.
Qed.

Lemma image_path_distinct_witness :
  image_file_name 93 ≠ image_file_name 7
  ∧ osp_join "data/WiderPedestrian" ["JPEGImages"; image_file_name 93]
    ≠ osp_join "data/WiderPedestrian" ["JPEGImages"; image_file_name 7].
Proof. apply image_path_distinct. lia. Defined.

(** ** More on the flags *)

Lemma set_config_same self : set_config self (config self) = self.
Proof. by destruct self. Qed.

Lemma flags_overwrite (c : gmap string bool) (a b a' b' : bool) :
  <["cleanup" := b']> (<["use_salt" := a']> (<["cleanup" := b]> (<["use_salt" := a]> c)))
  = <["cleanup" := b']> (<["use_salt" := a']> c).
Proof.
  apply map_eq. intros k.
  destruct (decide (k = "cleanup")) as [->|Hc]; [by rewrite !lookup_insert_eq|].
  rewrite !(lookup_insert_ne _ "cleanup") by done.
  destruct (decide (k = "use_salt")) as [->|Hs]; [by rewrite !lookup_insert_eq|].
  by rewrite !lookup_insert_ne.
Qed.

(** X20.  Lines 322-328.  Only the last call of [competition_mode] counts, and a
    call changes nothing of the instance but its configuration: the roidb,
    the image index, the class tables and the paths stay as they are. *)
Theorem competition_mode_last_call self on1 on2 :
  competition_mode (competition_mode self on1) on2 = competition_mode self on2
  ∧ set_config (competition_mode self on1) (config self) = self
  ∧ _roidb (competition_mode self on1) = _roidb self
  ∧ _image_index (competition_mode self on1) = _image_index self.
Proof.
  split_and!.
  - destruct self, on1, on2; unfold competition_mode, set_config; simpl;
      by rewrite flags_overwrite.
  - destruct self, on1; reflexivity.
  - by destruct on1.
  - by destruct on1.
Qed.

(** ** More on the evaluation driver *)

Example print_detection_eval_metrics_demo :
  _print_detection_eval_metrics demo_ds demo_eval = inr [Some (1 # 2); Some (1 # 2)].
Proof. vm_compute. reflexivity. Qed.

Example evaluate_detections_str_year_demo :
  evaluate_detections (with_year demo_ds "2018") demo_all_boxes "out" "6f1c" ∅
  = (inr (), <["out/detection_results.pkl" := PickledEval demo_eval]> ∅).
Proof.
  rewrite (evaluate_detections_str_year (with_year demo_ds "2018") "2018"
             true true demo_all_boxes "out" "6f1c" ∅ eq_refl eq_refl
             (init_built_class_table demo_env "val" None None demo_ds init_demo)
             eq_refl ltac:(repeat constructor) demo_eval
             [Some (1 # 2); Some (1 # 2)]) by (vm_compute; reflexivity).
  vm_compute. reflexivity.
Qed.

(** ** Where the constructor looks *)

Lemma join2_plain (dir b : string) :
  dir ≠ "" → endswith_sep dir = false → startswith_sep b = false →
  join2 dir b = dir +:+ "/" +:+ b.
Proof.
  intros Hne Hend Hstart. unfold join2.
  by rewrite Hstart, bool_decide_eq_false_2, Hend.
Qed.

Lemma string_app_nonempty (s t : string) : t ≠ "" → s +:+ t ≠ "".
Proof. intros Ht. destruct s; [by rewrite string_app_nil | by rewrite string_app_cons]. Qed.

(** X22.  Lines 37-43, 64-73.  With the default devkit and annotation paths, and
    a data directory that is not empty and does not end in a separator,
    [__init__] opens the annotation file
    [<DATA_DIR>/WiderPedestrian/annotations/WiderPedestrian_<image_set>.json]
    and no other; it raises exactly when that fails, and otherwise returns
    an instance over that index, with the identifiers of the index as image
    index, no roidb built yet, caching enabled and both flags set. *)
Theorem init_default_paths env image_set :
  cfg_DATA_DIR env ≠ "" →
  endswith_sep (cfg_DATA_DIR env) = false →
  let path := cfg_DATA_DIR env +:+ "/WiderPedestrian/annotations/WiderPedestrian_"
              +:+ image_set +:+ ".json" in
  match COCO_ctor env path with
  | None => __init__ env image_set None None = inl IOError
  | Some coco =>
      ∃ self,
        __init__ env image_set None None = inr self
        ∧ _COCO self = coco
        ∧ _image_index self = getImgIds coco
        ∧ _roidb self = None
        ∧ _use_cache self = true
        ∧ config self = flags true true
        ∧ _data_path self = cfg_DATA_DIR env +:+ "/WiderPedestrian"
  end.
Proof.
  intros Hne Hend path.
  assert (_get_default_path env = cfg_DATA_DIR env +:+ "/WiderPedestrian") as Hdevkit.
  { unfold _get_default_path, osp_join. simpl. by rewrite join2_plain. }
  assert (ann_file (osp_join (_get_default_path env) []) "annotations" image_set = path)
    as Hpath.
  { unfold ann_file, osp_join. simpl. rewrite Hdevkit.
    rewrite (join2_plain _ "annotations"); [|by apply string_app_nonempty| |done];
      last by rewrite endswith_sep_app.
    rewrite join2_plain; [|by apply string_app_nonempty| |done];
      last by rewrite !endswith_sep_app.
    unfold path. by rewrite !string_app_assoc. }
  unfold __init__. rewrite Hpath.
  destruct (COCO_ctor env path) as [coco|]; [|done].
  eexists. split; [reflexivity|]. simpl. split_and!; done.
Qed.

Lemma init_default_paths_witness :
  ∃ self,
    __init__ demo_env "val" None None = inr self
    ∧ _COCO self = demo_coco
    ∧ _data_path self = "data/WiderPedestrian".
Proof.
  pose proof (init_default_paths demo_env "val") as Hinit.
  simpl in Hinit.
  destruct Hinit as (self & Hself & Hcoco & _ & _ & _ & _ & Hpath); [done..|].
  exists self. split_and!; done.
Defined.
